(** * CsvUpload: the CSV ingestion and upload logic of the admin portal

    A shallow embedding of [src/components/admin/CsvUpload.tsx].

    - Module [JS] models the ECMAScript built-ins the component calls
      ([String.prototype.split], [trim], [endsWith], [Array.prototype.includes],
      [join], [forEach], [parseFloat], template literals over numbers).
    - Module [CsvUpload] embeds the component: the pure parse stage of
      [handleUpload] (source lines 49-82, called [ingest] after the
      specification) and [handleUpload] itself as a program in a small
      state-and-exception monad. *)

From Stdlib Require Import ZArith NArith List String Ascii Lia Decimal.
From Stdlib Require Import Floats.SpecFloat.
From Stdlib Require DecimalNat.
From stdpp Require Import base option list gmap.

Local Open Scope N_scope.

(* ===================================================================== *)
(** * ECMAScript built-ins *)
(* ===================================================================== *)

Module JS.

(** A JavaScript string is a finite sequence of UTF-16 code units.  A code
    unit is a number below 65536; none of the functions below depends on
    that bound. *)
Abbreviation jsstring := (list N).

(** String literals of the source, which are all ASCII. *)
Definition js (s : string) : jsstring :=
  map N_of_ascii (list_ascii_of_string s).

Definition LF : N := 10.
Definition CR : N := 13.
Definition COMMA : N := 44.

(** [s.split(sep)] for a separator of one code unit: the pieces between
    the occurrences of [sep].  The result is never empty: [''.split(sep)]
    is [['']]. *)
Fixpoint split (sep : N) (s : jsstring) : list jsstring :=
  match s with
  | [] => [[]]
  | c :: s' =>
      if c =? sep then [] :: split sep s'
      else match split sep s' with
           | [] => [[c]]
           | piece :: pieces => (c :: piece) :: pieces
           end
  end.

(** ECMAScript WhiteSpace (TAB, VT, FF, ZWNBSP and general category Zs) and
    LineTerminator (LF, CR, LS, PS): what [trim] and [parseFloat] strip. *)
Definition isWhiteSpace (c : N) : bool :=
  (c =? 9) || (c =? 11) || (c =? 12) || (c =? 32) || (c =? 160)
  || (c =? 5760) || ((8192 <=? c) && (c <=? 8202))
  || (c =? 8239) || (c =? 8287) || (c =? 12288) || (c =? 65279).

Definition isLineTerminator (c : N) : bool :=
  (c =? 10) || (c =? 13) || (c =? 8232) || (c =? 8233).

Definition isTrimmed (c : N) : bool := isWhiteSpace c || isLineTerminator c.

Fixpoint trimStart (s : jsstring) : jsstring :=
  match s with
  | [] => []
  | c :: s' => if isTrimmed c then trimStart s' else s
  end.

Fixpoint trimEnd (s : jsstring) : jsstring :=
  match s with
  | [] => []
  | c :: s' =>
      match trimEnd s' with
      | [] => if isTrimmed c then [] else [c]
      | t => c :: t
      end
  end.

(** [s.trim()] *)
Definition trim (s : jsstring) : jsstring := trimEnd (trimStart s).

(** Strict equality [===] of two strings. *)
Definition streq (a b : jsstring) : bool := bool_decide (a = b).

(** [arr.includes(x)] on an array of strings (SameValueZero is string
    equality there). *)
Definition includes (arr : list jsstring) (x : jsstring) : bool :=
  existsb (streq x) arr.

(** [arr.join(sep)] on an array of strings. *)
Fixpoint join (sep : jsstring) (arr : list jsstring) : jsstring :=
  match arr with
  | [] => []
  | [x] => x
  | x :: rest => x ++ sep ++ join sep rest
  end.

(** [s.endsWith(suffix)]: the last [suffix.length] code units of [s] are
    [suffix]; false when [s] is shorter. *)
Definition endsWith (s suffix : jsstring) : bool :=
  (length suffix <=? length s)%nat
  && streq (drop (length s - length suffix)%nat s) suffix.

(** [arr.forEach((x, index) => ...)] where the callback updates a state. *)
Fixpoint forEach_from {A St : Type} (f : A -> nat -> St -> St)
    (arr : list A) (index : nat) (st : St) : St :=
  match arr with
  | [] => st
  | x :: arr' => forEach_from f arr' (S index) (f x index st)
  end.

Definition forEach {A St : Type} (f : A -> nat -> St -> St)
    (arr : list A) (st : St) : St :=
  forEach_from f arr 0%nat st.

(** ** Numbers and [parseFloat] *)

(** A Number is an IEEE 754 binary64 value: the Standard Library's
    [spec_float] at precision 53 and maximal exponent 1024. *)
Abbreviation number := spec_float.

Definition prec : Z := 53.
Definition emax : Z := 1024.

Definition NaN : number := S754_nan.

(** The Number nearest to [(-1)^neg * num / den] for positive integers
    [num] and [den], ties to even, overflowing to an infinity. *)
Definition round_quotient (neg : bool) (num den : positive) : number :=
  SFdiv prec emax (S754_finite neg num 0) (S754_finite false den 0).

(** The Number for the integer [z] (exact below 2^53). *)
Definition number_of_Z (z : Z) : number :=
  match z with
  | Z0 => S754_zero false
  | Zpos p => round_quotient false p 1
  | Zneg p => round_quotient true p 1
  end.

(** [x] is exactly the integer [z]. *)
Definition represents_Z (x : number) (z : Z) : Prop :=
  match x with
  | S754_zero _ => z = 0%Z
  | S754_finite s m e =>
      (if s then Z.neg m else Z.pos m) = (z * 2 ^ (- e))%Z /\ (e <= 0)%Z
      \/ ((if s then Z.neg m else Z.pos m) * 2 ^ e)%Z = z /\ (0 <= e)%Z
  | _ => False
  end.

Definition isDigit (c : N) : bool := (48 <=? c) && (c <=? 57).

(** The longest run of decimal digits at the start of [s], and the rest. *)
Fixpoint span_digits (s : jsstring) : jsstring * jsstring :=
  match s with
  | [] => ([], [])
  | c :: s' =>
      if isDigit c
      then let '(ds, rest) := span_digits s' in (c :: ds, rest)
      else ([], s)
  end.

(** The mathematical value of a run of decimal digits. *)
Definition digits_value (ds : jsstring) : N :=
  fold_left (fun acc c => 10 * acc + (c - 48)) ds 0.

Fixpoint starts_with (p s : jsstring) : bool :=
  match p, s with
  | [], _ => true
  | _ :: _, [] => false
  | a :: p', b :: s' => (a =? b) && starts_with p' s'
  end.

(** The longest prefix of a string that is a StrUnsignedDecimalLiteral:
    [Infinity], or integer digits, fraction digits and the decimal
    exponent. *)
Inductive unsigned_literal :=
  | LitInfinity
  | LitDecimal (int_part frac_part : jsstring) (exponent : Z).

(** ExponentPart: [e] or [E], an optional sign, at least one digit;
    otherwise there is no exponent part and the prefix ends before it. *)
Definition parse_exponent (s : jsstring) : Z :=
  match s with
  | c :: s1 =>
      if (c =? 101) || (c =? 69) then
        let '(neg, s2) :=
          match s1 with
          | d :: s2 =>
              if d =? 45 then (true, s2)
              else if d =? 43 then (false, s2) else (false, s1)
          | [] => (false, s1)
          end in
        match fst (span_digits s2) with
        | [] => 0%Z
        | ds => if neg then (- Z.of_N (digits_value ds))%Z
                else Z.of_N (digits_value ds)
        end
      else 0%Z
  | [] => 0%Z
  end.

Definition parse_unsigned (s : jsstring) : option unsigned_literal :=
  if starts_with (js "Infinity") s then Some LitInfinity
  else
    let '(int_part, s1) := span_digits s in
    match s1 with
    | c :: s2 =>
        if c =? 46 then
          let '(frac_part, s3) := span_digits s2 in
          match int_part, frac_part with
          | [], [] => None
          | _, _ => Some (LitDecimal int_part frac_part (parse_exponent s3))
          end
        else
          match int_part with
          | [] => None
          | _ => Some (LitDecimal int_part [] (parse_exponent s1))
          end
    | [] =>
        match int_part with
        | [] => None
        | _ => Some (LitDecimal int_part [] 0%Z)
        end
    end.

(** StringNumericValue of an unsigned literal: the digits [int_part
    frac_part] scaled by ten to the [exponent - |frac_part|], rounded to
    the nearest Number.  The exact value is rounded, as the engines do;
    ECMAScript also allows an engine to cut a literal of more than twenty
    significant digits before it rounds. *)
Definition unsigned_value (neg : bool) (l : unsigned_literal) : number :=
  match l with
  | LitInfinity => S754_infinity neg
  | LitDecimal int_part frac_part exponent =>
      match digits_value (int_part ++ frac_part) with
      | N0 => S754_zero neg
      | Npos d =>
          let x := (exponent - Z.of_nat (length frac_part))%Z in
          round_quotient neg
            (d * Z.to_pos (10 ^ Z.max x 0))%positive
            (Z.to_pos (10 ^ Z.max (- x) 0))
      end
  end.

(** ToString of the argument of [parseFloat]: an array element read out of
    range is [undefined]. *)
Definition ToString (v : option jsstring) : jsstring :=
  match v with
  | Some s => s
  | None => js "undefined"
  end.

(** [parseFloat(v)]: skip leading white space, take the longest prefix
    that is a StrDecimalLiteral (an optional sign and an unsigned
    literal) and return its value; [NaN] when there is no such prefix. *)
Definition parseFloat (v : option jsstring) : number :=
  let trimmed := trimStart (ToString v) in
  let '(neg, body) :=
    match trimmed with
    | c :: rest =>
        if c =? 45 then (true, rest)
        else if c =? 43 then (false, rest) else (false, trimmed)
    | [] => (false, trimmed)
    end in
  match parse_unsigned body with
  | None => NaN
  | Some l => unsigned_value neg l
  end.

(** The text [parseFloat] cannot read a number from: after leading white
    space and one optional sign it starts neither with a digit, nor with
    a dot and a digit, nor with [Infinity]. *)
Definition numeric_start (body : jsstring) : bool :=
  match body with
  | c :: rest =>
      isDigit c
      || ((c =? 46) && match rest with d :: _ => isDigit d | [] => false end)
      || starts_with (js "Infinity") body
  | [] => false
  end.

Definition non_numeric (s : jsstring) : bool :=
  match trimStart s with
  | c :: rest =>
      negb (numeric_start (if (c =? 45) || (c =? 43) then rest
                           else c :: rest))
  | [] => true
  end.

(** [String(n)] for a non-negative integer such as an array length. *)
Fixpoint uint_digits (u : Decimal.uint) : jsstring :=
  match u with
  | Nil => []
  | D0 u => 48 :: uint_digits u
  | D1 u => 49 :: uint_digits u
  | D2 u => 50 :: uint_digits u
  | D3 u => 51 :: uint_digits u
  | D4 u => 52 :: uint_digits u
  | D5 u => 53 :: uint_digits u
  | D6 u => 54 :: uint_digits u
  | D7 u => 55 :: uint_digits u
  | D8 u => 56 :: uint_digits u
  | D9 u => 57 :: uint_digits u
  end.

Definition nat_to_string (n : nat) : jsstring := uint_digits (Nat.to_uint n).

End JS.

(* ===================================================================== *)
(** * The component *)
(* ===================================================================== *)

Module CsvUpload.
Import JS.

(** ** Products *)

(** What a property of a product object can hold after the parse: a
    string, a number, or [undefined] (an array read out of range). *)
Inductive value :=
  | VUndefined
  | VString (s : jsstring)
  | VNumber (x : number).

(** A product is a JavaScript object used as a map from property names to
    values: the parse assigns [product[header]] for arbitrary header
    names. *)
Abbreviation product := (gmap jsstring value).

(** The object literal of lines 63-71. *)
Definition empty_product : product :=
  <[js "id" := VString []]>
  (<[js "name" := VString []]>
  (<[js "description" := VString []]>
  (<[js "basePrice" := VNumber (S754_zero false)]>
  (<[js "stock" := VNumber (S754_zero false)]>
  (<[js "image" := VString []]>
  (<[js "category" := VString []]> ∅)))))).

(** [values[index]] *)
Definition element (values : list jsstring) (index : nat) : value :=
  match values !! index with
  | Some s => VString s
  | None => VUndefined
  end.

(** [product[header] = v] on an ordinary object whose prototype is
    [Object.prototype]: it creates or overwrites the own property
    [header], except for the name [__proto__], the inherited accessor,
    whose setter does nothing when handed a string, a number or
    [undefined]. *)
Definition set_property (header : jsstring) (v : value) (p : product) : product :=
  if streq header (js "__proto__") then p else <[header := v]> p.

(** The callback of [headers.forEach], lines 73-79. *)
Definition assign_header (values : list jsstring)
    (header : jsstring) (index : nat) (p : product) : product :=
  if streq header (js "basePrice") || streq header (js "stock")
  then set_property header (VNumber (parseFloat (values !! index))) p
  else set_property header (element values index) p.

(** The callback of [rows.slice(1).map], lines 61-82. *)
Definition parse_row (headers : list jsstring) (row : jsstring) : product :=
  let values := split COMMA row in
  forEach (assign_header values) headers empty_product.

(** ** The parse stage *)

(** Line 49: [text.split('\n').filter(row => row.trim() !== '')]. *)
Definition rows (text : jsstring) : list jsstring :=
  filter (fun row => trim row ≠ []) (split LF text).

(** Line 53. *)
Definition requiredColumns : list jsstring :=
  [js "id"; js "name"; js "description"; js "basePrice"; js "stock";
   js "image"; js "category"].

(** Line 54. *)
Definition missingColumns (headers : list jsstring) : list jsstring :=
  filter (fun col => negb (includes headers col)) requiredColumns.

(** What lines 49-82 can throw. *)
Inductive parse_error :=
  | UndefinedRow
      (** the TypeError of [rows[0].split] when [rows] is empty *)
  | MissingColumns (message : jsstring)
      (** the [Error] of line 57 *).

(** Lines 49-82 of [handleUpload]: from the text of the file to the
    products, or to the exception thrown on the way. *)
Definition ingest (text : jsstring) : parse_error + list product :=
  let rows := rows text in
  match rows !! 0%nat with
  | None => inl UndefinedRow
  | Some row0 =>
      let headers := split COMMA row0 in
      let missingColumns := missingColumns headers in
      if (0 <? length missingColumns)%nat
      then inl (MissingColumns
                  (js "Missing required columns: "
                   ++ join (js ", ") missingColumns))
      else inr (map (parse_row headers) (drop 1 rows))
  end.

(** ** The upload handler *)

(** A thrown value, as the [catch] clause of line 91 tells them apart:
    an instance of [Error] with its message, or anything else. *)
Inductive thrown :=
  | ErrorObject (message : jsstring)
  | OtherValue.

(** The selected [File]: its name, and what [file.text()] resolves to or
    rejects with. *)
Record File := {
  file_name : jsstring;
  file_text : thrown + jsstring
}.

Inductive status_type := success | error.

(** Line 14: the value of [uploadStatus] when it is not [null]. *)
Record status := {
  type : status_type;
  message : jsstring
}.

(** What the handler does outside the component's own state. *)
Inductive effect :=
  | SetTimeout (ms : N)
  | ReadText (f : File)
  | UploadProducts (products : list product)
  | ConsoleError (e : thrown).

Section Handler.

(** The product store of [useProducts()].  [uploadProducts] belongs to
    the product context, outside this component: it is taken as given,
    as an update of the store that returns normally. *)
Context {Store : Type}.
Variable uploadProducts : list product -> Store -> Store.

(** The message of the engine's TypeError for reading [split] of
    [undefined]. *)
Variable undefined_row_message : jsstring.

(** The component's state (lines 12-14), the store, and the effects so
    far, oldest first. *)
Record world := {
  file : option File;
  uploading : bool;
  uploadStatus : option status;
  store : Store;
  effects : list effect
}.

(** A computation that reads and updates the world and returns, or
    throws. *)
Definition M (A : Type) : Type := world -> (thrown + A) * world.

#[local] Instance M_ret : MRet M := fun A a w => (inr a, w).

#[local] Instance M_bind : MBind M := fun A B k m w =>
  match m w with
  | (inl e, w') => (inl e, w')
  | (inr a, w') => k a w'
  end.

Definition throw {A : Type} (e : thrown) : M A := fun w => (inl e, w).

(** [try { body } catch (e) { handler e } finally { final }] *)
Definition try_catch_finally {A : Type}
    (body : M A) (handler : thrown -> M A) (final : M unit) : M A :=
  fun w =>
    let '(r1, w1) := body w in
    let '(r2, w2) :=
      match r1 with
      | inl e => handler e w1
      | inr a => (inr a, w1)
      end in
    match final w2 with
    | (inl e, w3) => (inl e, w3)
    | (inr _, w3) => (r2, w3)
    end.

Definition perform (ev : effect) : M unit := fun w =>
  (inr tt, {| file := file w; uploading := uploading w;
              uploadStatus := uploadStatus w; store := store w;
              effects := effects w ++ [ev] |}).

Definition setUploading (b : bool) : M unit := fun w =>
  (inr tt, {| file := file w; uploading := b;
              uploadStatus := uploadStatus w; store := store w;
              effects := effects w |}).

Definition setUploadStatus (st : option status) : M unit := fun w =>
  (inr tt, {| file := file w; uploading := uploading w;
              uploadStatus := st; store := store w;
              effects := effects w |}).

(** [await new Promise(resolve => setTimeout(resolve, ms))] *)
Definition sleep (ms : N) : M unit := perform (SetTimeout ms).

(** [await file.text()] *)
Definition read_text (f : File) : M jsstring :=
  perform (ReadText f);;
  match file_text f with
  | inl e => throw e
  | inr text => mret text
  end.

(** Lines 49-82 inside the [try] block. *)
Definition parse (text : jsstring) : M (list product) :=
  match ingest text with
  | inl UndefinedRow => throw (ErrorObject undefined_row_message)
  | inl (MissingColumns msg) => throw (ErrorObject msg)
  | inr products => mret products
  end.

(** Line 85: [uploadProducts(products)]. *)
Definition call_uploadProducts (products : list product) : M unit := fun w =>
  (inr tt, {| file := file w; uploading := uploading w;
              uploadStatus := uploadStatus w;
              store := uploadProducts products (store w);
              effects := effects w ++ [UploadProducts products] |}).

(** Lines 23-100. *)
Definition handleUpload : M unit := fun w =>
  match file w with
  | None =>
      setUploadStatus
        (Some {| type := error; message := js "Please select a CSV file." |}) w
  | Some f =>
      if negb (endsWith (file_name f) (js ".csv")) then
        setUploadStatus
          (Some {| type := error;
                   message := js "Please upload a valid CSV file." |}) w
      else
        (setUploading true;;
         setUploadStatus None;;
         try_catch_finally
           (sleep 1500;;
            text ← read_text f;
            products ← parse text;
            call_uploadProducts products;;
            setUploadStatus
              (Some {| type := success;
                       message := js "Successfully processed "
                                  ++ nat_to_string (length products)
                                  ++ js " products." |}))
           (fun e =>
              perform (ConsoleError e);;
              setUploadStatus
                (Some {| type := error;
                         message :=
                           match e with
                           | ErrorObject msg => msg
                           | OtherValue =>
                               js "An error occurred while processing the CSV file."
                           end |}))
           (setUploading false)) w
  end.

(** ** Choosing and clearing the file *)

Definition setFile (f : option File) : M unit := fun w =>
  (inr tt, {| file := f; uploading := uploading w;
              uploadStatus := uploadStatus w; store := store w;
              effects := effects w |}).

(** Lines 16-21.  [files] is [e.target.files]: [null], or the list of
    the files chosen in the dialog. *)
Definition handleFileChange (files : option (list File)) : M unit :=
  match files with
  | Some (f :: _) => setFile (Some f);; setUploadStatus None
  | _ => mret tt
  end.

(** Lines 102-105. *)
Definition handleClearFile : M unit :=
  setFile None;; setUploadStatus None.

(** ** What is rendered *)

Inductive alert_variant := variant_default | variant_destructive.

(** The [Alert] of lines 145-152. *)
Record alert := {
  variant : alert_variant;
  title : jsstring;
  description : jsstring
}.

(** The parts of the rendered tree (lines 107-175) that depend on the
    state, the line with the size of the file apart: whether the file
    input is disabled, the Clear button ([None] when it is not rendered,
    else whether it is disabled), the alert, and the upload button. *)
Record controls := {
  input_disabled : bool;
  clear_button : option bool;
  alert_box : option alert;
  upload_disabled : bool;
  upload_label : jsstring
}.

Definition render (w : world) : controls :=
  {| input_disabled := uploading w;
     clear_button :=
       match file w with
       | Some _ => Some (uploading w)
       | None => None
       end;
     alert_box :=
       match uploadStatus w with
       | Some st =>
           Some {| variant := match type st with
                              | success => variant_default
                              | error => variant_destructive
                              end;
                   title := match type st with
                            | success => js "Success"
                            | error => js "Error"
                            end;
                   description := message st |}
       | None => None
       end;
     upload_disabled :=
       match file w with None => true | Some _ => false end || uploading w;
     upload_label :=
       if uploading w then js "Uploading..."
       else js "Upload to AWS S3 & Process" |}.

End Handler.

(** The sample of the "Sample CSV Format" box (lines 166-167): the header
    row and the first data row. *)
Definition sample_header : jsstring :=
  js "id,name,description,basePrice,stock,image,category".

Definition sample_row : jsstring :=
  js "1,Laptop Pro,High-performance laptop,1200,10,https://example.com/laptop.jpg,Electronics".

Definition sample_product : product :=
  <[js "id" := VString (js "1")]>
  (<[js "name" := VString (js "Laptop Pro")]>
  (<[js "description" := VString (js "High-performance laptop")]>
  (<[js "basePrice" := VNumber (number_of_Z 1200)]>
  (<[js "stock" := VNumber (number_of_Z 10)]>
  (<[js "image" := VString (js "https://example.com/laptop.jpg")]>
  (<[js "category" := VString (js "Electronics")]> ∅)))))).

(** ** Invariants of a record *)

(** A property that holds a number is [basePrice] or [stock], and
    conversely. *)
Definition well_typed (p : product) : Prop :=
  forall k v,
    p !! k = Some v ->
    (exists x, v = VNumber x) <-> (k = js "basePrice" \/ k = js "stock").

(** Every string a record holds is free of the code units in [seps]. *)
Definition strings_avoid (seps : list N) (p : product) : Prop :=
  forall k v, p !! k = Some (VString v) -> forall c, c ∈ seps -> c ∉ v.

(** The arguments of the calls of [uploadProducts] among some effects,
    oldest first. *)
Definition upload_calls (evs : list effect) : list (list product) :=
  omap (fun ev => match ev with
                  | UploadProducts products => Some products
                  | _ => None
                  end) evs.

(** The text of a file whose lines each end in CR LF. *)
Definition crlf_text (lines : list jsstring) : jsstring :=
  concat (map (fun line => line ++ [CR; LF]) lines).

(** The value the callback of lines 73-79 assigns to [product[header]]. *)
Definition field_value (values : list jsstring)
    (header : jsstring) (index : nat) : value :=
  if streq header (js "basePrice") || streq header (js "stock")
  then VNumber (parseFloat (values !! index))
  else element values index.

(** The value of [product[header]] when [values[index]] is out of range. *)
Definition out_of_range_value (header : jsstring) : value :=
  if streq header (js "basePrice") || streq header (js "stock")
  then VNumber NaN else VUndefined.

End CsvUpload.

(* ===================================================================== *)
(** * Properties of the built-ins *)
(* ===================================================================== *)

Module JSFacts.
Import JS.

Lemma split_not_nil sep s : split sep s ≠ [].
Proof.
  destruct s as [|c s]; simpl; [done|].
  destruct (c =? sep); [done|]. by destruct (split sep s).
Qed.

(** A piece that holds no separator is split off whole. *)
Lemma split_app_sep sep a b :
  sep ∉ a -> split sep (a ++ sep :: b) = a :: split sep b.
Proof.
  induction a as [|c a IH]; intros Hnotin; simpl.
  - by rewrite N.eqb_refl.
  - apply not_elem_of_cons in Hnotin as [Hne Hnotin].
    destruct (N.eqb_spec c sep) as [->|_]; [done|].
    by rewrite IH.
Qed.

Lemma split_no_sep sep a : sep ∉ a -> split sep a = [a].
Proof.
  induction a as [|c a IH]; intros Hnotin; simpl; [done|].
  apply not_elem_of_cons in Hnotin as [Hne Hnotin].
  destruct (N.eqb_spec c sep) as [->|_]; [done|].
  by rewrite IH.
Qed.

(** Appending a code unit that is not the separator leaves every piece
    but the last as it was and appends the unit to the last piece. *)
Lemma split_snoc sep s c :
  c ≠ sep ->
  exists init lst,
    split sep s = init ++ [lst] /\
    split sep (s ++ [c]) = init ++ [lst ++ [c]].
Proof.
  intros Hc. induction s as [|a s (init & lst & E1 & E2)]; simpl.
  - exists [], []. split; [done|].
    by destruct (N.eqb_spec c sep).
  - rewrite E1, E2. destruct (a =? sep).
    + by exists ([] :: init), lst.
    + destruct init as [|x init]; simpl.
      * by exists [], (a :: lst).
      * by exists ((a :: x) :: init), lst.
Qed.

Lemma trimStart_nil s :
  trimStart s = [] <-> Forall (fun c => isTrimmed c = true) s.
Proof.
  induction s as [|c s IH]; simpl.
  - split; [constructor|done].
  - destruct (isTrimmed c) eqn:E.
    + rewrite IH. split; [by constructor|by inversion 1].
    + split; [done|]. inversion 1; congruence.
Qed.

Lemma trimStart_head s c t : trimStart s = c :: t -> isTrimmed c = false.
Proof.
  induction s as [|a s IH]; simpl; [done|].
  destruct (isTrimmed a) eqn:E; [done|]. by intros [= <- _].
Qed.

Lemma trimEnd_nil s :
  trimEnd s = [] <-> Forall (fun c => isTrimmed c = true) s.
Proof.
  induction s as [|c s IH]; simpl.
  - split; [constructor|done].
  - destruct (trimEnd s) as [|x t].
    + destruct (isTrimmed c) eqn:E.
      * split; [intros _; constructor; [done|by apply IH]|done].
      * split; [done|]. inversion 1; congruence.
    + split; [done|]. inversion 1 as [|? ? _ Hs]. by apply IH in Hs.
Qed.

(** [s.trim() === ''] exactly when every code unit of [s] is white space
    or a line terminator. *)
Lemma trim_nil s :
  trim s = [] <-> Forall (fun c => isTrimmed c = true) s.
Proof.
  unfold trim. rewrite trimEnd_nil. split.
  - intros H. apply trimStart_nil.
    destruct (trimStart s) as [|c t] eqn:E; [done|].
    apply trimStart_head in E. inversion H; congruence.
  - intros H. apply trimStart_nil in H. rewrite H. constructor.
Qed.

Lemma includes_elem_of arr x : includes arr x = true <-> x ∈ arr.
Proof.
  unfold includes, streq. rewrite existsb_exists. split.
  - intros (y & Hin & Heq). apply bool_decide_eq_true in Heq as ->.
    by apply list_elem_of_In.
  - intros Hin. exists x. split; [by apply list_elem_of_In|].
    by apply bool_decide_eq_true.
Qed.

Lemma endsWith_suffix s suf : endsWith s suf = true <-> suf `suffix_of` s.
Proof.
  unfold endsWith, streq.
  rewrite andb_true_iff, Nat.leb_le, bool_decide_eq_true. split.
  - intros [Hlen Hdrop]. exists (take (length s - length suf) s).
    rewrite <- (take_drop (length s - length suf) s) at 1. by rewrite Hdrop.
  - intros [k ->]. rewrite length_app. split; [lia|].
    replace (length k + length suf - length suf)%nat with (length k) by lia.
    by rewrite drop_app_length.
Qed.

(** [join] writes the first element and then each further element after
    the separator. *)
Lemma join_cons sep x l :
  join sep (x :: l) = x ++ concat (map (fun y => sep ++ y) l).
Proof.
  revert x. induction l as [|y l IH]; intros x.
  - simpl. by rewrite app_nil_r.
  - change (join sep (x :: y :: l)) with (x ++ sep ++ join sep (y :: l)).
    rewrite IH. simpl. by rewrite <- app_assoc.
Qed.

(** *** [parseFloat] *)

Lemma parse_unsigned_not_numeric body :
  numeric_start body = false -> parse_unsigned body = None.
Proof.
  destruct body as [|c rest]; [done|].
  unfold numeric_start. rewrite !orb_false_iff.
  intros [[Hdigit Hdot] Hinf].
  unfold parse_unsigned. rewrite Hinf.
  cbn [span_digits]. rewrite Hdigit.
  destruct (c =? 46); [|done].
  destruct rest as [|d rest']; [done|].
  cbn [span_digits]. simpl in Hdot. by rewrite Hdot.
Qed.

(** [parseFloat] of a non-numeric text is [NaN]. *)
Lemma parseFloat_non_numeric s :
  non_numeric s = true -> parseFloat (Some s) = NaN.
Proof.
  unfold non_numeric, parseFloat, ToString.
  destruct (trimStart s) as [|c rest]; [done|].
  intros Hnn. apply negb_true_iff in Hnn.
  destruct (c =? 45); simpl in Hnn.
  { by rewrite parse_unsigned_not_numeric. }
  destruct (c =? 43); simpl in Hnn;
    by rewrite parse_unsigned_not_numeric.
Qed.

(** Rounding a quotient of positive integers gives a zero, a finite
    number or an infinity. *)
Lemma shr_1_nonneg mrs : (0 <= shr_m mrs)%Z -> (0 <= shr_m (shr_1 mrs))%Z.
Proof. destruct mrs as [[|[p|p|]|p] r st]; simpl; lia. Qed.

Lemma iter_shr_1_nonneg p mrs :
  (0 <= shr_m mrs)%Z -> (0 <= shr_m (SpecFloat.iter_pos shr_1 p mrs))%Z.
Proof.
  revert mrs. induction p as [p IH|p IH|]; intros mrs Hm; simpl.
  - by apply IH, IH, shr_1_nonneg.
  - by apply IH, IH.
  - by apply shr_1_nonneg.
Qed.

Lemma shr_fexp_nonneg m e l :
  (0 <= m)%Z -> (0 <= shr_m (fst (shr_fexp prec emax m e l)))%Z.
Proof.
  intros Hm. unfold shr_fexp, shr.
  assert (0 <= shr_m (shr_record_of_loc m l))%Z
    by (by destruct l as [|[]]).
  destruct (fexp prec emax (Zdigits2 m + e) - e)%Z; simpl; try done.
  by apply iter_shr_1_nonneg.
Qed.

Lemma round_nearest_even_nonneg m l :
  (0 <= m)%Z -> (0 <= round_nearest_even m l)%Z.
Proof.
  intros Hm. destruct l as [|[]]; simpl; try lia.
  destruct (Z.even m); lia.
Qed.

Lemma binary_round_aux_not_NaN sx mx ex lx :
  (0 <= mx)%Z -> binary_round_aux prec emax sx mx ex lx ≠ S754_nan.
Proof.
  intros Hm. unfold binary_round_aux.
  pose proof (shr_fexp_nonneg mx ex lx Hm) as H1.
  destruct (shr_fexp prec emax mx ex lx) as [mrs' e']. simpl in H1.
  pose proof (shr_fexp_nonneg _ e' loc_Exact
                (round_nearest_even_nonneg _ (loc_of_shr_record mrs') H1))
    as H2.
  destruct (shr_fexp prec emax _ e' loc_Exact) as [mrs'' e'']. simpl in H2.
  destruct (shr_m mrs'') as [|m|m]; [done| |lia].
  by destruct (e'' <=? emax - prec)%Z.
Qed.

Lemma round_quotient_not_NaN neg num den : round_quotient neg num den ≠ NaN.
Proof.
  unfold round_quotient, SFdiv, SFdiv_core_binary.
  set (m' := match _ with Z.pos _ => _ | _ => _ end).
  assert (0 <= m')%Z as Hm'.
  { subst m'. destruct (_ - _ - _)%Z; try lia. apply Z.shiftl_nonneg. lia. }
  pose proof (Z.div_pos m' (Z.pos den) Hm' ltac:(lia)) as Hq.
  unfold Z.div in Hq.
  destruct (Z.div_eucl m' (Z.pos den)) as [q r]. simpl in Hq.
  by apply binary_round_aux_not_NaN.
Qed.

Lemma unsigned_value_not_NaN neg l : unsigned_value neg l ≠ NaN.
Proof.
  destruct l as [|int_part frac_part exponent]; simpl; [done|].
  destruct (digits_value _); [done|]. apply round_quotient_not_NaN.
Qed.

Lemma parse_unsigned_numeric body :
  numeric_start body = true -> is_Some (parse_unsigned body).
Proof.
  destruct body as [|c rest]; [done|].
  unfold numeric_start, parse_unsigned.
  destruct (starts_with (js "Infinity") (c :: rest)); [by eexists|].
  rewrite orb_false_r. cbn [span_digits].
  destruct (isDigit c) eqn:Hdigit; simpl.
  - intros _. destruct (span_digits rest) as [ds s1].
    destruct s1 as [|d s2]; [by eexists|].
    destruct (d =? 46); [|by eexists].
    destruct (span_digits s2). by eexists.
  - intros [Hdot Hfrac]%andb_true_iff. rewrite Hdot.
    destruct rest as [|d rest']; [done|].
    cbn [span_digits]. rewrite Hfrac.
    destruct (span_digits rest'). by eexists.
Qed.

(** [parseFloat] gives [NaN] for the non-numeric texts and for no other. *)
Lemma parseFloat_NaN_iff s :
  parseFloat (Some s) = NaN <-> non_numeric s = true.
Proof.
  split; [|apply parseFloat_non_numeric].
  unfold non_numeric, parseFloat, ToString.
  destruct (trimStart s) as [|c rest]; [done|].
  intros Hnan. apply negb_true_iff, not_true_is_false. intros Hnum.
  revert Hnan.
  destruct (c =? 45), (c =? 43); cbn [orb] in Hnum; cbv beta iota;
    destruct (parse_unsigned_numeric _ Hnum) as [l ->];
    apply unsigned_value_not_NaN.
Qed.

Lemma parseFloat_undefined : parseFloat None = NaN.
Proof. reflexivity. Qed.

End JSFacts.

(* ===================================================================== *)
(** * Properties of the parse stage *)
(* ===================================================================== *)

Module IngestFacts.
Import JS JSFacts CsvUpload.

Lemma lookup_map {A B : Type} (f : A -> B) (l : list A) (i : nat) :
  map f l !! i = f <$> l !! i.
Proof.
  revert i. induction l as [|x l IH]; intros [|i]; simpl; done.
Qed.

(** *** The rows *)

Lemma trim_not_nil row :
  trim row ≠ [] <-> Exists (fun c => isTrimmed c = false) row.
Proof.
  rewrite trim_nil, Exists_exists, Forall_forall. split.
  - intros H. destruct (decide (Exists (fun c => isTrimmed c = false) row))
      as [Hex|Hnex]; [by apply Exists_exists in Hex|].
    exfalso. apply H. intros c Hc.
    destruct (isTrimmed c) eqn:E; [done|].
    exfalso. apply Hnex, Exists_exists. eauto.
  - intros (c & Hc & Hfalse) H. specialize (H c Hc). congruence.
Qed.

(** The rows kept by line 49 are those holding a code unit that is
    neither white space nor a line terminator. *)
Lemma rows_spec text :
  rows text =
  filter (fun row => Exists (fun c => isTrimmed c = false) row) (split LF text).
Proof. unfold rows. apply list_filter_iff, trim_not_nil. Qed.

(** *** Header validation *)

Lemma elem_of_missingColumns headers col :
  col ∈ missingColumns headers <-> col ∈ requiredColumns /\ col ∉ headers.
Proof.
  unfold missingColumns. rewrite list_elem_of_filter, negb_True.
  rewrite <- (includes_elem_of headers col). split.
  - intros [Hnot Hin]. split; [done|]. intros Heq. apply Hnot. by rewrite Heq.
  - intros [Hin Hnot]. split; [|done]. intros Heq. apply Hnot.
    by apply Is_true_eq_true.
Qed.

Lemma missingColumns_sublist headers :
  missingColumns headers `sublist_of` requiredColumns.
Proof. apply sublist_filter. Qed.

Lemma missingColumns_nil headers :
  missingColumns headers = [] <->
  forall col, col ∈ requiredColumns -> col ∈ headers.
Proof.
  split.
  - intros Hnil col Hreq. destruct (decide (col ∈ headers)) as [|Hnot]; [done|].
    assert (col ∈ missingColumns headers) as Hin
      by by apply elem_of_missingColumns.
    rewrite Hnil in Hin. by apply not_elem_of_nil in Hin.
  - intros Hall. destruct (missingColumns headers) as [|col l] eqn:E; [done|].
    assert (col ∈ missingColumns headers) as Hin by (rewrite E; left).
    apply elem_of_missingColumns in Hin as [Hreq Hnot]. by apply Hall in Hreq.
Qed.

(** *** The three outcomes of the parse stage *)

Lemma ingest_no_rows text : rows text = [] -> ingest text = inl UndefinedRow.
Proof. unfold ingest. by intros ->. Qed.

Lemma ingest_missing text hdr rest :
  rows text = hdr :: rest ->
  missingColumns (split COMMA hdr) ≠ [] ->
  ingest text =
  inl (MissingColumns (js "Missing required columns: "
                       ++ join (js ", ") (missingColumns (split COMMA hdr)))).
Proof.
  unfold ingest. intros -> Hne. cbn [lookup list_lookup].
  destruct (missingColumns (split COMMA hdr)); [done|]. done.
Qed.

Lemma ingest_valid text hdr rest :
  rows text = hdr :: rest ->
  missingColumns (split COMMA hdr) = [] ->
  ingest text = inr (map (parse_row (split COMMA hdr)) rest).
Proof.
  unfold ingest. intros -> Hnil. cbn [lookup list_lookup].
  rewrite Hnil. done.
Qed.

Lemma ingest_complete_header text hdr rest :
  rows text = hdr :: rest ->
  (forall col, col ∈ requiredColumns -> col ∈ split COMMA hdr) ->
  ingest text = inr (map (parse_row (split COMMA hdr)) rest).
Proof.
  intros Hrows Hall. apply (ingest_valid _ _ _ Hrows).
  by apply missingColumns_nil.
Qed.

(** *** One row *)

Lemma assign_header_set values header index p :
  assign_header values header index p
  = set_property header (field_value values header index) p.
Proof.
  unfold assign_header, field_value.
  by destruct (streq header (js "basePrice") || streq header (js "stock")).
Qed.

Lemma assign_header_lookup_ne values header index p h :
  h ≠ header -> assign_header values header index p !! h = p !! h.
Proof.
  intros Hne. rewrite assign_header_set. unfold set_property.
  destruct (streq header (js "__proto__")); [done|].
  by rewrite lookup_insert_ne.
Qed.

Lemma assign_header_lookup_eq values header index p :
  header ≠ js "__proto__" ->
  assign_header values header index p !! header
  = Some (field_value values header index).
Proof.
  intros Hne. rewrite assign_header_set. unfold set_property, streq.
  rewrite bool_decide_eq_false_2 by done. by rewrite lookup_insert_eq.
Qed.

(** A name that is not a header keeps the value it had. *)
Lemma forEach_from_absent values headers start p h :
  h ∉ headers ->
  forEach_from (assign_header values) headers start p !! h = p !! h.
Proof.
  revert start p. induction headers as [|x hs IH]; intros start p Hnotin;
    simpl; [done|].
  apply not_elem_of_cons in Hnotin as [Hne Hnotin].
  rewrite IH by done. by apply assign_header_lookup_ne.
Qed.

(** The last column of a name decides the property of that name. *)
Lemma forEach_from_last values headers start p h i :
  headers !! i = Some h ->
  h ∉ drop (S i) headers ->
  h ≠ js "__proto__" ->
  forEach_from (assign_header values) headers start p !! h
  = Some (field_value values h (start + i)).
Proof.
  revert start p i.
  induction headers as [|x hs IH]; intros start p [|i] Hi Hlast Hproto;
    simpl in *; try done.
  - injection Hi as ->. rewrite drop_0 in Hlast.
    rewrite forEach_from_absent by done.
    rewrite Nat.add_0_r. by apply assign_header_lookup_eq.
  - rewrite (IH (S start) _ i) by done. do 2 f_equal. lia.
Qed.

Lemma field_value_out_of_range values h index :
  (length values <= index)%nat ->
  field_value values h index = out_of_range_value h.
Proof.
  intros Hlen. unfold field_value, out_of_range_value, element.
  rewrite (lookup_ge_None_2 values index) by done.
  destruct (streq h (js "basePrice") || streq h (js "stock")); [|done].
  f_equal.
Qed.

Lemma forEach_from_stays_out_of_range values headers start p h :
  (length values <= start)%nat ->
  p !! h = Some (out_of_range_value h) ->
  forEach_from (assign_header values) headers start p !! h
  = Some (out_of_range_value h).
Proof.
  revert start p. induction headers as [|x hs IH]; intros start p Hlen Hp;
    simpl; [done|].
  apply IH; [lia|].
  destruct (decide (h = x)) as [->|Hne].
  - rewrite assign_header_set. unfold set_property.
    destruct (streq x (js "__proto__")); [done|].
    rewrite lookup_insert_eq. f_equal. by apply field_value_out_of_range.
  - by rewrite assign_header_lookup_ne.
Qed.

(** A column beyond the end of the row leaves its name out of range. *)
Lemma forEach_from_out_of_range values headers start p h i :
  headers !! i = Some h ->
  h ≠ js "__proto__" ->
  (length values <= start + i)%nat ->
  forEach_from (assign_header values) headers start p !! h
  = Some (out_of_range_value h).
Proof.
  revert start p i.
  induction headers as [|x hs IH]; intros start p [|i] Hi Hproto Hlen;
    simpl in *; try done.
  - injection Hi as ->. apply forEach_from_stays_out_of_range; [lia|].
    rewrite assign_header_lookup_eq by done. f_equal.
    apply field_value_out_of_range. lia.
  - apply (IH (S start) _ i); [done|done|lia].
Qed.

(** Only the values under a header are read. *)
Lemma forEach_from_take values values' headers start p :
  take (start + length headers) values = take (start + length headers) values' ->
  forEach_from (assign_header values) headers start p
  = forEach_from (assign_header values') headers start p.
Proof.
  revert start p. induction headers as [|x hs IH]; intros start p Htake;
    simpl in *; [done|].
  assert (values !! start = values' !! start) as Hstart.
  { rewrite <- (lookup_take_lt values (start + S (length hs)) start) by lia.
    rewrite <- (lookup_take_lt values' (start + S (length hs)) start) by lia.
    by rewrite Htake. }
  assert (assign_header values x start p = assign_header values' x start p)
    as ->.
  { unfold assign_header, element. by rewrite Hstart. }
  apply IH. replace (S start + length hs)%nat with (start + S (length hs))%nat
    by lia. done.
Qed.

Lemma parse_row_last headers row h i :
  headers !! i = Some h ->
  h ∉ drop (S i) headers ->
  h ≠ js "__proto__" ->
  parse_row headers row !! h = Some (field_value (split COMMA row) h i).
Proof. intros. unfold parse_row, forEach. by rewrite (forEach_from_last _ _ _ _ _ i). Qed.

Lemma parse_row_out_of_range headers row h i :
  headers !! i = Some h ->
  h ≠ js "__proto__" ->
  (length (split COMMA row) <= i)%nat ->
  parse_row headers row !! h = Some (out_of_range_value h).
Proof.
  intros. unfold parse_row, forEach.
  by apply (forEach_from_out_of_range _ _ _ _ _ i).
Qed.

Lemma parse_row_take headers row row' :
  take (length headers) (split COMMA row)
  = take (length headers) (split COMMA row') ->
  parse_row headers row = parse_row headers row'.
Proof. intros. unfold parse_row, forEach. by apply forEach_from_take. Qed.

(** *** Header validation, as the specification states it *)

(** C1. When the header row lacks one or more of the seven required
    column names, the parse stage fails with the error of line 57, whose
    message is [Missing required columns: ] followed by the missing names
    joined by [, ]: exactly the required names that are not in the header,
    in the order of [requiredColumns]. *)
Theorem missing_columns_reported text hdr rest :
  rows text = hdr :: rest ->
  (exists col, col ∈ requiredColumns /\ col ∉ split COMMA hdr) ->
  exists first others,
    ingest text =
      inl (MissingColumns
             (js "Missing required columns: " ++ first
              ++ concat (map (fun name => js ", " ++ name) others)))
    /\ (forall col,
          col ∈ first :: others
          <-> col ∈ requiredColumns /\ col ∉ split COMMA hdr)
    /\ first :: others `sublist_of` requiredColumns.
Proof.
  intros Hrows (col & Hreq & Hnot).
  destruct (missingColumns (split COMMA hdr)) as [|first others] eqn:E.
  { by apply (proj1 (missingColumns_nil _) E) in Hreq. }
  exists first, others. split; [|split].
  - rewrite (ingest_missing _ _ _ Hrows) by by rewrite E.
    by rewrite E, join_cons.
  - rewrite <- E. apply elem_of_missingColumns.
  - rewrite <- E. apply missingColumns_sublist.
Qed.

Lemma missing_columns_reported_witness :
  let text := js "name,id,price,stock" ++ [LF] ++ js "Chair,2,300,25" in
  rows text = [js "name,id,price,stock"; js "Chair,2,300,25"]
  /\ (js "image" ∈ requiredColumns
      /\ js "image" ∉ split COMMA (js "name,id,price,stock"))
  /\ (exists first others,
        ingest text =
          inl (MissingColumns
                 (js "Missing required columns: " ++ first
                  ++ concat (map (fun name => js ", " ++ name) others)))
        /\ (forall col,
              col ∈ first :: others <->
              col ∈ requiredColumns
              /\ col ∉ split COMMA (js "name,id,price,stock"))
        /\ first :: others `sublist_of` requiredColumns)
  /\ ingest text
     = inl (MissingColumns
              (js "Missing required columns: description, basePrice, image, category")).
Proof.
  intros text.
  assert (rows text = [js "name,id,price,stock"; js "Chair,2,300,25"])
    as Hrows by (vm_compute; reflexivity).
  assert (js "image" ∈ requiredColumns
          /\ js "image" ∉ split COMMA (js "name,id,price,stock"))
    as Himage by (split; compute_done).
  split; [exact Hrows|]. split; [exact Himage|].
  split; [|vm_compute; reflexivity].
  apply (missing_columns_reported text _ _ Hrows).
  exists (js "image"). exact Himage.
Defined.

(** C6. When the header row holds all seven required names, each as an
    exact match, in any order and among any other columns, validation
    passes: the parse stage throws no error and returns the records of
    the data rows. *)
Theorem complete_header_passes text hdr rest :
  rows text = hdr :: rest ->
  (forall col, col ∈ requiredColumns -> col ∈ split COMMA hdr) ->
  ingest text = inr (map (parse_row (split COMMA hdr)) rest).
Proof.
  intros Hrows Hall.
  assert (missingColumns (split COMMA hdr) = []) as Hnil.
  { destruct (missingColumns (split COMMA hdr)) as [|col l] eqn:E; [done|].
    assert (col ∈ missingColumns (split COMMA hdr)) as Hin by (rewrite E; left).
    apply elem_of_missingColumns in Hin as [Hreq Hnot].
    by apply Hall in Hreq. }
  unfold ingest. rewrite Hrows. cbn [lookup list_lookup].
  by rewrite Hnil.
Qed.

Lemma complete_header_passes_witness :
  let hdr := js "sku,category,image,stock,basePrice,description,name,id" in
  let text := hdr ++ [LF] ++ js "A-1,Furniture,chair.jpg,25,300,A chair,Chair,2" in
  rows text = [hdr; js "A-1,Furniture,chair.jpg,25,300,A chair,Chair,2"]
  /\ (forall col, col ∈ requiredColumns -> col ∈ split COMMA hdr)
  /\ ingest text =
     inr (map (parse_row (split COMMA hdr))
            [js "A-1,Furniture,chair.jpg,25,300,A chair,Chair,2"]).
Proof.
  intros hdr text.
  assert (rows text = [hdr; js "A-1,Furniture,chair.jpg,25,300,A chair,Chair,2"])
    as Hrows by (vm_compute; reflexivity).
  assert (forall col, col ∈ requiredColumns -> col ∈ split COMMA hdr)
    as Hall by (apply Forall_forall; compute_done).
  split; [exact Hrows|]. split; [exact Hall|].
  exact (complete_header_passes text _ _ Hrows Hall).
Defined.

(** A text of a valid header row and nothing else gives no record. *)
Lemma header_only_gives_no_record text hdr :
  rows text = [hdr] ->
  (forall col, col ∈ requiredColumns -> col ∈ split COMMA hdr) ->
  ingest text = inr [].
Proof. intros Hrows Hall. by rewrite (ingest_complete_header _ _ _ Hrows Hall). Qed.

(** C2. On the empty text, and on a text of blank lines,
    [rows] is empty, [rows[0]] is [undefined] and line 50 throws a
    TypeError: the parse stage does not return an empty sequence. *)
Theorem empty_text_throws :
  rows [] = []
  /\ ingest [] = inl UndefinedRow
  /\ ingest (js " " ++ [LF; CR; LF]) = inl UndefinedRow.
Proof. split; [|split]; vm_compute; reflexivity. Qed.

(** C3. The header row and the first data row of the sample give exactly
    one record: [basePrice] is the number 1200, [stock] is the number 10,
    the other five properties are the strings of the row, and the record
    has no other property. *)
Theorem sample_gives_one_record :
  ingest (sample_header ++ [LF] ++ sample_row) = inr [sample_product]
  /\ sample_product !! js "id" = Some (VString (js "1"))
  /\ sample_product !! js "name" = Some (VString (js "Laptop Pro"))
  /\ sample_product !! js "description"
     = Some (VString (js "High-performance laptop"))
  /\ (exists x, sample_product !! js "basePrice" = Some (VNumber x)
                /\ represents_Z x 1200)
  /\ (exists x, sample_product !! js "stock" = Some (VNumber x)
                /\ represents_Z x 10)
  /\ sample_product !! js "image"
     = Some (VString (js "https://example.com/laptop.jpg"))
  /\ sample_product !! js "category" = Some (VString (js "Electronics"))
  /\ dom sample_product = list_to_set requiredColumns.
Proof.
  repeat split; try (vm_compute; reflexivity).
  - eexists. split; [vm_compute; reflexivity|]. left. by vm_compute.
  - eexists. split; [vm_compute; reflexivity|]. left. by vm_compute.
Qed.

(** Whenever the parse stage returns records, the header row was valid
    and the records are those of the data rows, in order. *)
Lemma ingest_returns_inv text ps :
  ingest text = inr ps ->
  exists hdr rest,
    rows text = hdr :: rest
    /\ (forall col, col ∈ requiredColumns -> col ∈ split COMMA hdr)
    /\ ps = map (parse_row (split COMMA hdr)) rest.
Proof.
  intros Hret. destruct (rows text) as [|hdr rest] eqn:Hrows.
  - by rewrite (ingest_no_rows _ Hrows) in Hret.
  - exists hdr, rest. split; [done|].
    destruct (decide (missingColumns (split COMMA hdr) = [])) as [Hnil|Hne].
    + split; [by apply missingColumns_nil|].
      rewrite (ingest_valid _ _ _ Hrows Hnil) in Hret. congruence.
    + by rewrite (ingest_missing _ _ _ Hrows Hne) in Hret.
Qed.

Lemma split_only_commas row piece :
  (forall c, c ∈ row -> c = COMMA) -> piece ∈ split COMMA row -> piece = [].
Proof.
  revert piece. induction row as [|c row IH]; intros piece Hall; simpl.
  - by intros ->%list_elem_of_singleton.
  - rewrite (Hall c) by left. simpl.
    intros [->|Hin]%elem_of_cons; [done|].
    apply IH; [|done]. intros c' Hc'. apply Hall. by right.
Qed.

(** C8. For a text whose header row passes validation, the parse stage
    returns exactly one record per row that holds something other than
    white space, the header row apart, in the order of the rows; a row of
    commas only is such a row and gives a record. *)
Theorem one_record_per_row text hdr rest :
  rows text = hdr :: rest ->
  (forall col, col ∈ requiredColumns -> col ∈ split COMMA hdr) ->
  hdr :: rest
  = filter (fun row => Exists (fun c => isTrimmed c = false) row)
      (split LF text)
  /\ exists ps,
       ingest text = inr ps
       /\ length ps = length rest
       /\ (forall i row,
             rest !! i = Some row ->
             ps !! i = Some (parse_row (split COMMA hdr) row))
       /\ (forall row,
             row ∈ split LF text -> row ≠ [] ->
             (forall c, c ∈ row -> c = COMMA) ->
             exists i, rest !! i = Some row /\ is_Some (ps !! i)).
Proof.
  intros Hrows Hall. split; [by rewrite <- Hrows, rows_spec|].
  exists (map (parse_row (split COMMA hdr)) rest).
  split; [by apply ingest_complete_header|].
  split; [apply length_map|].
  split; [by intros i row Hi; rewrite lookup_map, Hi|].
  intros row Hin Hne Hcommas.
  assert (row ∈ hdr :: rest) as [->|Hrest]%elem_of_cons.
  { rewrite <- Hrows, rows_spec. apply list_elem_of_filter. split; [|done].
    destruct row as [|c row]; [done|]. apply Exists_cons_hd.
    by rewrite (Hcommas c) by left. }
  - assert (js "id" ∈ split COMMA hdr) as Hid by (apply Hall; left).
    by apply (split_only_commas _ _ Hcommas) in Hid.
  - apply list_elem_of_lookup in Hrest as [i Hi]. exists i. split; [done|].
    rewrite lookup_map, Hi. by eexists.
Qed.

Lemma one_record_per_row_witness :
  let text := sample_header ++ [LF; LF] ++ js ",,," ++ [LF] ++ js "  "
              ++ [LF] ++ sample_row ++ [LF] in
  rows text = [sample_header; js ",,,"; sample_row]
  /\ (forall col, col ∈ requiredColumns -> col ∈ split COMMA sample_header)
  /\ exists ps,
       ingest text = inr ps
       /\ length ps = 2%nat
       /\ ps !! 0%nat = Some (parse_row (split COMMA sample_header) (js ",,,"))
       /\ ps !! 1%nat = Some (parse_row (split COMMA sample_header) sample_row).
Proof.
  intros text.
  assert (rows text = [sample_header; js ",,,"; sample_row])
    as Hrows by (vm_compute; reflexivity).
  assert (forall col, col ∈ requiredColumns -> col ∈ split COMMA sample_header)
    as Hall by (apply Forall_forall; compute_done).
  split; [exact Hrows|]. split; [exact Hall|].
  destruct (one_record_per_row text _ _ Hrows Hall)
    as (_ & ps & Hret & Hlen & Hrec & _).
  exists ps. split; [exact Hret|]. split; [exact Hlen|].
  split; apply Hrec; reflexivity.
Defined.

(** C7. A non-numeric [basePrice] or [stock] value does not make the
    parse stage fail: under a valid header, the record of the row holds
    [parseFloat] of the value of the column that decides the field, and
    for a text that [parseFloat] cannot read a number from that is [NaN]. *)
Theorem non_numeric_value_gives_NaN text hdr rest k row field i v :
  rows text = hdr :: rest ->
  (forall col, col ∈ requiredColumns -> col ∈ split COMMA hdr) ->
  rest !! k = Some row ->
  field = js "basePrice" \/ field = js "stock" ->
  split COMMA hdr !! i = Some field ->
  field ∉ drop (S i) (split COMMA hdr) ->
  split COMMA row !! i = Some v ->
  non_numeric v = true ->
  exists ps p,
    ingest text = inr ps
    /\ ps !! k = Some p
    /\ p !! field = Some (VNumber (parseFloat (Some v)))
    /\ parseFloat (Some v) = NaN.
Proof.
  intros Hrows Hall Hk Hfield Hi Hlast Hv Hnn.
  exists (map (parse_row (split COMMA hdr)) rest),
         (parse_row (split COMMA hdr) row).
  split; [by apply ingest_complete_header|].
  split; [by rewrite lookup_map, Hk|].
  split; [|by apply parseFloat_non_numeric].
  rewrite (parse_row_last _ _ _ i) by (done || by destruct Hfield as [->| ->]).
  unfold field_value. rewrite Hv.
  by destruct Hfield as [->| ->].
Qed.

Lemma non_numeric_value_gives_NaN_witness :
  let text := sample_header ++ [LF]
              ++ js "7,Desk,Oak desk,n/a,12 units,desk.jpg,Furniture" in
  exists ps p,
    ingest text = inr ps
    /\ ps !! 0%nat = Some p
    /\ p !! js "basePrice" = Some (VNumber (parseFloat (Some (js "n/a"))))
    /\ parseFloat (Some (js "n/a")) = NaN.
Proof.
  intros text.
  apply (non_numeric_value_gives_NaN text sample_header
           [js "7,Desk,Oak desk,n/a,12 units,desk.jpg,Furniture"] 0
           (js "7,Desk,Oak desk,n/a,12 units,desk.jpg,Furniture")
           (js "basePrice") 3 (js "n/a")).
  - vm_compute; reflexivity.
  - apply Forall_forall; compute_done.
  - reflexivity.
  - left; reflexivity.
  - vm_compute; reflexivity.
  - compute_done.
  - vm_compute; reflexivity.
  - vm_compute; reflexivity.
Defined.

(** C9. The number of values of a row is not checked.  Under a valid
    header the parse stage returns the records whatever the lengths of
    the rows; a header at a position beyond the end of the row gives
    [undefined] for its property, [NaN] for [basePrice] and [stock]; and
    the values beyond the last header are not read. *)
Theorem row_length_not_checked text hdr rest :
  rows text = hdr :: rest ->
  (forall col, col ∈ requiredColumns -> col ∈ split COMMA hdr) ->
  ingest text = inr (map (parse_row (split COMMA hdr)) rest)
  /\ (forall row i h,
        split COMMA hdr !! i = Some h ->
        (length (split COMMA row) <= i)%nat ->
        h ≠ js "__proto__" ->
        (h = js "basePrice" \/ h = js "stock" ->
         parse_row (split COMMA hdr) row !! h = Some (VNumber NaN))
        /\ (h ≠ js "basePrice" -> h ≠ js "stock" ->
            parse_row (split COMMA hdr) row !! h = Some VUndefined))
  /\ (forall row row',
        take (length (split COMMA hdr)) (split COMMA row)
        = take (length (split COMMA hdr)) (split COMMA row') ->
        parse_row (split COMMA hdr) row = parse_row (split COMMA hdr) row').
Proof.
  intros Hrows Hall. split; [by apply ingest_complete_header|]. split.
  - intros row i h Hi Hlen Hproto.
    rewrite (parse_row_out_of_range _ _ _ i) by done.
    unfold out_of_range_value, streq. split.
    + by intros [-> | ->].
    + intros Hbp Hst. by rewrite !bool_decide_eq_false_2.
  - intros row row'. apply parse_row_take.
Qed.

Lemma row_length_not_checked_witness :
  let text := sample_header ++ [LF] ++ js "9,Lamp" ++ [LF]
              ++ sample_row ++ js ",extra,values" in
  exists p q,
    ingest text = inr [p; q]
    /\ p !! js "id" = Some (VString (js "9"))
    /\ p !! js "category" = Some VUndefined
    /\ p !! js "stock" = Some (VNumber NaN)
    /\ q = sample_product.
Proof.
  intros text.
  assert (rows text
          = [sample_header; js "9,Lamp"; sample_row ++ js ",extra,values"])
    as Hrows by (vm_compute; reflexivity).
  assert (forall col, col ∈ requiredColumns -> col ∈ split COMMA sample_header)
    as Hall by (apply Forall_forall; compute_done).
  destruct (row_length_not_checked text _ _ Hrows Hall)
    as (Hret & Hshort & Hlong).
  exists (parse_row (split COMMA sample_header) (js "9,Lamp")),
         (parse_row (split COMMA sample_header)
            (sample_row ++ js ",extra,values")).
  split; [exact Hret|].
  split; [vm_compute; reflexivity|].
  split.
  { apply (Hshort (js "9,Lamp") 6%nat (js "category"));
      [vm_compute; reflexivity|vm_compute; lia|compute_done
      |compute_done|compute_done]. }
  split.
  { apply (Hshort (js "9,Lamp") 4%nat (js "stock"));
      [vm_compute; reflexivity|vm_compute; lia|compute_done
      |right; reflexivity]. }
  rewrite (Hlong _ sample_row) by (vm_compute; reflexivity).
  vm_compute; reflexivity.
Defined.

(** *** CRLF line endings *)

Lemma split_crlf_text lines final :
  Forall (fun line => LF ∉ line) lines ->
  LF ∉ final ->
  split LF (crlf_text lines ++ final)
  = map (fun line => line ++ [CR]) lines ++ [final].
Proof.
  intros Hlines Hfinal. induction Hlines as [|line lines Hline _ IH]; simpl.
  - by apply split_no_sep.
  - unfold crlf_text in *. simpl.
    replace ((line ++ [CR; LF]) ++ concat (map (fun l => l ++ [CR; LF]) lines))
      with ((line ++ [CR])
            ++ LF :: concat (map (fun l => l ++ [CR; LF]) lines))
      by (by rewrite <- !app_assoc).
    rewrite <- app_assoc. simpl. rewrite split_app_sep, IH; [done|].
    apply not_elem_of_app. split; [done|].
    by intros ?%list_elem_of_singleton.
Qed.

Lemma trim_snoc_CR line : trim (line ++ [CR]) ≠ [] <-> trim line ≠ [].
Proof.
  rewrite !trim_nil, Forall_app. split; intros H H'; apply H.
  - split; [done|]. by repeat constructor.
  - by destruct H'.
Qed.

Lemma filter_map_snoc_CR lines :
  filter (fun row => trim row ≠ []) (map (fun line => line ++ [CR]) lines)
  = map (fun line => line ++ [CR]) (filter (fun line => trim line ≠ []) lines).
Proof.
  induction lines as [|line lines IH]; simpl; [done|].
  rewrite !filter_cons. destruct (decide (trim line ≠ [])) as [Hne|He].
  - rewrite decide_True by by apply trim_snoc_CR. simpl. by rewrite IH.
  - rewrite decide_False by by rewrite trim_snoc_CR. done.
Qed.

(** The rows of a text whose lines each end in CR LF are its non-blank
    lines, each with the CR still at its end. *)
Lemma rows_crlf_text lines :
  Forall (fun line => LF ∉ line) lines ->
  rows (crlf_text lines)
  = map (fun line => line ++ [CR]) (filter (fun line => trim line ≠ []) lines).
Proof.
  intros Hlines. unfold rows.
  rewrite <- (app_nil_r (crlf_text lines)).
  rewrite split_crlf_text by (done || apply not_elem_of_nil).
  rewrite filter_app, filter_map_snoc_CR.
  rewrite filter_cons_False by (intros H; by apply H).
  by rewrite filter_nil, app_nil_r.
Qed.

Lemma snoc_CR_ne (col : jsstring) : col ≠ col ++ [CR].
Proof.
  intros Heq. apply (f_equal length) in Heq.
  rewrite length_app in Heq. simpl in Heq. lia.
Qed.

(** The same with a last line that has no line terminator: that line, if
    it is not blank, is a row as it is written. *)
Lemma rows_crlf_text_final lines final :
  Forall (fun line => LF ∉ line) lines ->
  LF ∉ final ->
  rows (crlf_text lines ++ final)
  = map (fun line => line ++ [CR]) (filter (fun line => trim line ≠ []) lines)
    ++ filter (fun line => trim line ≠ []) [final].
Proof.
  intros Hlines Hfinal. unfold rows.
  by rewrite split_crlf_text, filter_app, filter_map_snoc_CR.
Qed.

(** C10, as amended.  The text is split at LF only and CR is never
    removed.  In a text of lines that end in CR LF, followed or not by a
    last line without a line terminator, each row that ends in CR LF
    keeps the CR, so its columns before the last are as written and its
    last header name or last value ends in CR, while the last line
    without a terminator is a row without a CR.  When the header row ends
    in CR LF and its last column is a required name that no earlier
    column of the header row holds, validation fails and the message
    names that column as missing. *)
Theorem crlf_rows_keep_carriage_return lines final :
  Forall (fun line => LF ∉ line) lines ->
  LF ∉ final ->
  rows (crlf_text lines ++ final)
  = map (fun line => line ++ [CR]) (filter (fun line => trim line ≠ []) lines)
    ++ filter (fun line => trim line ≠ []) [final]
  /\ (forall line, exists init lst,
        split COMMA line = init ++ [lst]
        /\ split COMMA (line ++ [CR]) = init ++ [lst ++ [CR]])
  /\ (forall hdr rest init col,
        filter (fun line => trim line ≠ []) lines = hdr :: rest ->
        split COMMA hdr = init ++ [col] ->
        col ∈ requiredColumns ->
        col ∉ init ->
        exists first others,
          ingest (crlf_text lines ++ final)
          = inl (MissingColumns
                   (js "Missing required columns: " ++ first
                    ++ concat (map (fun name => js ", " ++ name) others)))
          /\ col ∈ first :: others).
Proof.
  intros Hlines Hfinal. split; [by apply rows_crlf_text_final|]. split.
  - intros line. by apply split_snoc.
  - intros hdr rest init col Hfilter Hsplit Hreq Hnotin.
    pose proof (rows_crlf_text_final _ _ Hlines Hfinal) as Hrows.
    rewrite Hfilter in Hrows. simpl in Hrows.
    destruct (split_snoc COMMA hdr CR) as (init' & lst & E1 & E2); [done|].
    rewrite Hsplit in E1. apply app_inj_tail in E1 as [<- <-].
    assert (col ∈ missingColumns (split COMMA (hdr ++ [CR]))) as Hmiss.
    { apply elem_of_missingColumns. split; [done|].
      rewrite E2. apply not_elem_of_app. split; [done|].
      intros ?%list_elem_of_singleton. by apply (snoc_CR_ne col). }
    destruct (missingColumns (split COMMA (hdr ++ [CR])))
      as [|first others] eqn:E; [by apply not_elem_of_nil in Hmiss|].
    exists first, others. split; [|done].
    rewrite (ingest_missing _ _ _ Hrows) by by rewrite E.
    by rewrite E, join_cons.
Qed.

Lemma crlf_rows_keep_carriage_return_witness :
  let lines := [sample_header] in
  let final := sample_row in
  rows (crlf_text lines ++ final) = [sample_header ++ [CR]; sample_row]
  /\ rows (crlf_text [sample_header; sample_row])
     = [sample_header ++ [CR]; sample_row ++ [CR]]
  /\ split COMMA (sample_header ++ [CR])
     = [js "id"; js "name"; js "description"; js "basePrice"; js "stock";
        js "image"; js "category" ++ [CR]]
  /\ ingest (crlf_text lines ++ final)
     = inl (MissingColumns (js "Missing required columns: category")).
Proof.
  intros lines final.
  assert (Forall (fun line => LF ∉ line) lines) as Hlines
    by (repeat constructor; compute_done).
  assert (LF ∉ final) as Hfinal by compute_done.
  destruct (crlf_rows_keep_carriage_return lines final Hlines Hfinal)
    as (Hrows & _ & Hmissing).
  split; [exact Hrows|].
  split; [vm_compute; reflexivity|]. split; [vm_compute; reflexivity|].
  destruct (Hmissing sample_header []
              [js "id"; js "name"; js "description"; js "basePrice";
               js "stock"; js "image"] (js "category"))
    as (first & others & Hret & _);
    [vm_compute; reflexivity|vm_compute; reflexivity
    |compute_done|compute_done|].
  vm_compute; reflexivity.
Defined.

(** Two files with CRLF line endings on which the claim as first stated
    fails.  A header row that also names [category] in an earlier column
    passes validation, although its last column, [category], is a
    required name.  And when the last row has no line terminator, its
    last value has no CR at its end. *)
Lemma crlf_repeated_last_column_passes :
  let hdr := js "category,id,name,description,basePrice,stock,image,category" in
  let row := js "Electronics,1,Laptop Pro,High-performance laptop,1200,10,https://example.com/laptop.jpg,Electronics" in
  rows (crlf_text [hdr; row]) = [hdr ++ [CR]; row ++ [CR]]
  /\ last (split COMMA hdr) = Some (js "category")
  /\ js "category" ∈ requiredColumns
  /\ missingColumns (split COMMA (hdr ++ [CR])) = []
  /\ ingest (crlf_text [hdr; row])
     = inr [parse_row (split COMMA (hdr ++ [CR])) (row ++ [CR])]
  /\ ~ (forall lines hdr rest init col,
          Forall (fun line => LF ∉ line) lines ->
          filter (fun line => trim line ≠ []) lines = hdr :: rest ->
          split COMMA hdr = init ++ [col] ->
          col ∈ requiredColumns ->
          exists msg, ingest (crlf_text lines) = inl (MissingColumns msg))
  /\ rows (hdr ++ [CR; LF] ++ row) = [hdr ++ [CR]; row]
  /\ last (split COMMA row) = Some (js "Electronics")
  /\ (exists p,
        ingest (hdr ++ [CR; LF] ++ row) = inr [p]
        /\ p !! (js "category" ++ [CR]) = Some (VString (js "Electronics"))).
Proof.
  intros hdr row.
  assert (ingest (crlf_text [hdr; row])
          = inr [parse_row (split COMMA (hdr ++ [CR])) (row ++ [CR])])
    as Hret by (vm_compute; reflexivity).
  split; [vm_compute; reflexivity|]. split; [vm_compute; reflexivity|].
  split; [compute_done|]. split; [vm_compute; reflexivity|].
  split; [exact Hret|].
  split.
  { intros Hclaim.
    destruct (Hclaim [hdr; row] hdr [row]
                [js "category"; js "id"; js "name"; js "description";
                 js "basePrice"; js "stock"; js "image"] (js "category"))
      as [msg Hmsg];
      [repeat constructor; compute_done|vm_compute; reflexivity
      |vm_compute; reflexivity|compute_done|].
    rewrite Hret in Hmsg. discriminate. }
  split; [vm_compute; reflexivity|]. split; [vm_compute; reflexivity|].
  eexists. split; vm_compute; reflexivity.
Qed.

End IngestFacts.

(* ===================================================================== *)
(** * Properties of the upload handler *)
(* ===================================================================== *)

Module UploadFacts.
Import JS JSFacts CsvUpload.

Ltac evaluate := vm_compute; reflexivity.

(** The shape of every case of [store_called_at_most_once]: the run
    returns, its effects extend the log, and [tac] picks the outcome. *)
Ltac outcome tac :=
  split; [done|];
  eexists; split;
    [first [by rewrite <- !app_assoc|symmetry; apply app_nil_r]|];
  split; [simpl; lia|];
  split; [tac|].

Ltac outcome_error := simpl; outcome ltac:(left; eauto).

Section Handler.

Context {Store : Type}.
Variable uploadProducts : list product -> Store -> Store.
Variable undefined_row_message : jsstring.

Local Abbreviation run := (handleUpload uploadProducts undefined_row_message).

(** C5. With no file selected, or with a file whose name does not end in
    [.csv], the handler only sets an error status: it neither waits, nor
    reads the file, nor calls the store, and the outcome does not depend
    on the text of the file. *)
Theorem rejected_before_any_work (w : world) :
  file w = None
  \/ (exists f, file w = Some f /\ ~ js ".csv" `suffix_of` file_name f) ->
  run w
  = (inr tt,
     {| file := file w; uploading := uploading w;
        uploadStatus :=
          Some {| type := error;
                  message := match file w with
                             | None => js "Please select a CSV file."
                             | Some _ => js "Please upload a valid CSV file."
                             end |};
        store := store w; effects := effects w |}).
Proof.
  intros [Hnone|(f & Hsome & Hext)]; unfold handleUpload, setUploadStatus.
  - by rewrite Hnone.
  - rewrite Hsome.
    destruct (endsWith (file_name f) (js ".csv")) eqn:E; [|done].
    by apply endsWith_suffix in E.
Qed.

(** C4. One run of the handler calls [uploadProducts] at most once.  It
    ends either with an error status, the store untouched and never
    called, or with a success status after exactly one call, which hands
    over all the records of the parse stage.  When reading the file or the
    parse stage throws, it is the former. *)
Theorem store_called_at_most_once (w : world) :
  let '(r, w') := run w in
  r = inr tt
  /\ exists evs,
       effects w' = effects w ++ evs
       /\ (length (upload_calls evs) <= 1)%nat
       /\ ((upload_calls evs = []
            /\ store w' = store w
            /\ exists msg,
                 uploadStatus w' = Some {| type := error; message := msg |})
           \/ (exists f text products,
                 file w = Some f
                 /\ file_text f = inr text
                 /\ ingest text = inr products
                 /\ upload_calls evs = [products]
                 /\ store w' = uploadProducts products (store w)
                 /\ exists msg,
                      uploadStatus w'
                      = Some {| type := success; message := msg |}))
       /\ (forall f,
             file w = Some f ->
             (exists e, file_text f = inl e)
             \/ (exists text e, file_text f = inr text /\ ingest text = inl e) ->
             upload_calls evs = [] /\ store w' = store w).
Proof.
  unfold handleUpload.
  destruct (file w) as [f|] eqn:Hfile; [|by outcome_error].
  destruct (endsWith (file_name f) (js ".csv")) eqn:Hext;
    [|by outcome_error].
  unfold try_catch_finally, mbind, M_bind, read_text, parse, sleep, perform,
    throw, mret, M_ret, call_uploadProducts, setUploadStatus, setUploading;
    simpl.
  destruct (file_text f) as [e|text] eqn:Htext; simpl; [by outcome_error|].
  destruct (ingest text) as [[|msg]|products] eqn:Hingest; simpl;
    [by outcome_error|by outcome_error|].
  outcome ltac:(right; exists f, text, products; eauto 10).
  intros f' [= <-] [[e He]|(text' & e & Ht & He)]; congruence.
Qed.

(** A file of the header row and the two data rows of the sample: the
    store is called once with the two records and the status reports
    two products. *)
Example upload_two_rows :
  let f := {| file_name := js "products.csv";
              file_text :=
                inr (sample_header ++ [LF] ++ sample_row ++ [LF]
                     ++ js "2,Office Chair,Ergonomic chair for your office,300,25,https://example.com/chair.jpg,Furniture"
                     ++ [LF]) |} in
  forall w : world, file w = Some f ->
  exists p q,
    run w
    = (inr tt,
       {| file := Some f; uploading := false;
          uploadStatus :=
            Some {| type := success;
                    message := js "Successfully processed 2 products." |};
          store := uploadProducts [p; q] (store w);
          effects := effects w ++ [SetTimeout 1500; ReadText f;
                                   UploadProducts [p; q]] |})
    /\ p = sample_product
    /\ q !! js "name" = Some (VString (js "Office Chair")).
Proof.
  intros f w Hfile. eexists _, _. split; [|split].
  - unfold handleUpload. rewrite Hfile.
    unfold try_catch_finally, mbind, M_bind, read_text, parse, sleep,
      perform, throw, mret, M_ret, call_uploadProducts, setUploadStatus,
      setUploading.
    simpl. rewrite Hfile, <- !app_assoc. reflexivity.
  - evaluate.
  - evaluate.
Qed.

(** An empty file: the TypeError of line 50 is caught and its message
    becomes the status; the store is not called. *)
Example upload_empty_file :
  let f := {| file_name := js "products.csv"; file_text := inr [] |} in
  forall w : world, file w = Some f ->
  run w
  = (inr tt,
     {| file := Some f; uploading := false;
        uploadStatus :=
          Some {| type := error; message := undefined_row_message |};
        store := store w;
        effects := effects w
                   ++ [SetTimeout 1500; ReadText f;
                       ConsoleError (ErrorObject undefined_row_message)] |}).
Proof.
  intros f w Hfile. unfold handleUpload. rewrite Hfile.
  unfold try_catch_finally, mbind, M_bind, read_text, parse, sleep,
    perform, throw, mret, M_ret, call_uploadProducts, setUploadStatus,
    setUploading.
  simpl. rewrite Hfile, <- !app_assoc. reflexivity.
Qed.

End Handler.

Lemma rejected_before_any_work_witness :
  let f := {| file_name := js "products.csv.txt";
              file_text := inr (sample_header ++ [LF] ++ sample_row) |} in
  let w := {| file := Some f; uploading := false; uploadStatus := None;
              store := @nil product; effects := [] |} in
  ~ js ".csv" `suffix_of` file_name f
  /\ handleUpload (fun products st => products ++ st) [] w
     = (inr tt,
        {| file := Some f; uploading := false;
           uploadStatus :=
             Some {| type := error;
                     message := js "Please upload a valid CSV file." |};
           store := []; effects := [] |}).
Proof.
  intros f w.
  assert (~ js ".csv" `suffix_of` file_name f) as Hext by compute_done.
  split; [exact Hext|].
  apply (rejected_before_any_work (fun products st => products ++ st) [] w).
  right. exists f. split; [reflexivity|exact Hext].
Defined.

End UploadFacts.

(* ===================================================================== *)
(** * Further properties of the parse stage: texts *)
(* ===================================================================== *)

Module TextFacts.
Import JS JSFacts CsvUpload IngestFacts.

Lemma split_app_cons sep a b :
  split sep (a ++ sep :: b) = split sep a ++ split sep b.
Proof.
  induction a as [|c a IH]; simpl.
  - by rewrite N.eqb_refl.
  - rewrite IH. destruct (c =? sep); [done|].
    pose proof (split_not_nil sep a) as Hne.
    by destruct (split sep a).
Qed.

Lemma Forall_split (P : N -> Prop) sep s :
  P sep ->
  Forall (Forall P) (split sep s) <-> Forall P s.
Proof.
  intros Hsep. induction s as [|c s IH]; simpl.
  - split; [constructor|]. by repeat constructor.
  - destruct (N.eqb_spec c sep) as [->|Hne].
    + rewrite !Forall_cons, IH. intuition auto.
    + pose proof (split_not_nil sep s) as Hnil.
      destruct (split sep s) as [|piece pieces]; [done|].
      rewrite !Forall_cons in *. tauto.
Qed.

Lemma rows_nil text :
  rows text = [] <-> Forall (fun c => isTrimmed c = true) text.
Proof.
  rewrite <- (Forall_split _ LF) by done.
  unfold rows. split.
  - intros Hnil. apply Forall_forall. intros row Hrow.
    apply trim_nil. destruct (decide (trim row = [])) as [|Hne]; [done|].
    assert (row ∈ filter (fun row => trim row ≠ []) (split LF text)) as Hin
      by by apply list_elem_of_filter.
    rewrite Hnil in Hin. by apply not_elem_of_nil in Hin.
  - intros Hall. destruct (filter _ _) as [|row l] eqn:E; [done|].
    assert (row ∈ filter (fun row => trim row ≠ []) (split LF text)) as Hin
      by (rewrite E; left).
    apply list_elem_of_filter in Hin as [Hne Hin].
    rewrite Forall_forall in Hall. by apply Hall, trim_nil in Hin.
Qed.

Lemma rows_line_feed a b : rows (a ++ LF :: b) = rows a ++ rows b.
Proof. unfold rows. by rewrite split_app_cons, filter_app. Qed.

(** X1. The rows of two texts put together with a line feed between them
    are the rows of the first followed by the rows of the second. *)
Theorem rows_app a b : rows (a ++ LF :: b) = rows a ++ rows b.
Proof. apply rows_line_feed. Qed.

(** X2. Line 50 throws its TypeError exactly on the texts that hold
    nothing but white space and line terminators. *)
Theorem ingest_undefined_row_iff text :
  ingest text = inl UndefinedRow
  <-> Forall (fun c => isTrimmed c = true) text.
Proof.
  rewrite <- rows_nil. split.
  - intros Hret. destruct (rows text) as [|hdr rest] eqn:Hrows; [done|].
    destruct (decide (missingColumns (split COMMA hdr) = [])) as [Hnil|Hne].
    + by rewrite (ingest_valid _ _ _ Hrows Hnil) in Hret.
    + by rewrite (ingest_missing _ _ _ Hrows Hne) in Hret.
  - apply ingest_no_rows.
Qed.

Lemma ingest_rows_eq a b : rows a = rows b -> ingest a = ingest b.
Proof. unfold ingest. by intros ->. Qed.

(** X3. Blank lines before and after a text change nothing: a text of
    white space and line terminators only, added in front of a text or
    behind it with a line feed between, gives the same outcome. *)
Theorem blank_lines_ignored a blank :
  Forall (fun c => isTrimmed c = true) blank ->
  ingest (a ++ LF :: blank) = ingest a
  /\ ingest (blank ++ LF :: a) = ingest a.
Proof.
  intros Hblank%rows_nil.
  split; apply ingest_rows_eq; rewrite rows_line_feed, Hblank;
    [apply app_nil_r|done].
Qed.

Lemma blank_lines_ignored_witness :
  let text := sample_header ++ [LF] ++ sample_row in
  let blank := [CR; LF; 32; 9; CR; LF] in
  Forall (fun c => isTrimmed c = true) blank
  /\ ingest (text ++ LF :: blank) = inr [sample_product]
  /\ ingest (blank ++ LF :: text) = inr [sample_product].
Proof.
  intros text blank.
  assert (Forall (fun c => isTrimmed c = true) blank) as Hblank
    by (repeat constructor).
  assert (ingest text = inr [sample_product]) as Hret
    by (vm_compute; reflexivity).
  destruct (blank_lines_ignored text blank Hblank) as [H1 H2].
  split; [exact Hblank|]. split.
  - rewrite H1. exact Hret.
  - rewrite H2. exact Hret.
Defined.

(** X4. The parse stage returns records exactly when the text has a
    first non-blank row and that row holds all seven required names. *)
Theorem ingest_succeeds_iff text :
  (exists products, ingest text = inr products)
  <-> exists hdr rest,
        rows text = hdr :: rest
        /\ forall col, col ∈ requiredColumns -> col ∈ split COMMA hdr.
Proof.
  split.
  - intros [ps (hdr & rest & Hrows & Hall & _)%ingest_returns_inv]. eauto.
  - intros (hdr & rest & Hrows & Hall). eexists.
    by apply ingest_complete_header.
Qed.

(** X5. The header row alone decides between the error and the records,
    and text added behind a line feed only adds records at the end: the
    outcome of the longer text is the error of the shorter one, or its
    records followed by one record per row of the added text, read under
    the same header. *)
Theorem ingest_app a b hdr rest :
  rows a = hdr :: rest ->
  ingest (a ++ LF :: b)
  = match ingest a with
    | inl e => inl e
    | inr products =>
        inr (products ++ map (parse_row (split COMMA hdr)) (rows b))
    end.
Proof.
  intros Hrows.
  assert (rows (a ++ LF :: b) = hdr :: (rest ++ rows b)) as Hrows'
    by by rewrite rows_line_feed, Hrows.
  destruct (decide (missingColumns (split COMMA hdr) = [])) as [Hnil|Hne].
  - rewrite (ingest_valid _ _ _ Hrows Hnil), (ingest_valid _ _ _ Hrows' Hnil).
    by rewrite map_app.
  - by rewrite (ingest_missing _ _ _ Hrows Hne),
         (ingest_missing _ _ _ Hrows' Hne).
Qed.

Lemma ingest_app_witness :
  let a := sample_header ++ [LF] ++ sample_row in
  let b := js "2,Office Chair,Ergonomic chair for your office,300,25,https://example.com/chair.jpg,Furniture" in
  rows a = [sample_header; sample_row]
  /\ ingest (a ++ LF :: b)
     = inr ([sample_product] ++ [parse_row (split COMMA sample_header) b]).
Proof.
  intros a b.
  assert (rows a = [sample_header; sample_row]) as Hrows
    by (vm_compute; reflexivity).
  split; [exact Hrows|].
  rewrite (ingest_app a b _ _ Hrows).
  vm_compute; reflexivity.
Defined.

End TextFacts.

(* ===================================================================== *)
(** * Further properties of the parse stage: records *)
(* ===================================================================== *)

Module RecordFacts.
Import JS JSFacts CsvUpload IngestFacts.

#[local] Set Warnings "-clear-no-such-hyp".

Ltac not_both :=
  split;
  [ intros [? [=]]
  | intros [Heq|Heq]; vm_compute in Heq; discriminate ].

Lemma empty_product_well_typed : well_typed empty_product.
Proof.
  intros k v H. unfold empty_product in H.
  repeat (apply lookup_insert_Some in H as [[<- <-]|[_ H]]);
    try not_both; try (split; [by auto|by eauto]).
  by rewrite lookup_empty in H.
Qed.

Lemma assign_header_well_typed values header index p :
  well_typed p -> well_typed (assign_header values header index p).
Proof.
  intros Hp k v. rewrite assign_header_set. unfold set_property.
  destruct (streq header (js "__proto__")); [apply Hp|].
  rewrite lookup_insert_Some. intros [[<- <-]|[_ Hk]]; [|by apply Hp].
  unfold field_value, streq, element.
  destruct (decide (header = js "basePrice")) as [->|Hbp].
  { rewrite bool_decide_eq_true_2 by done. simpl. split; eauto. }
  destruct (decide (header = js "stock")) as [->|Hst].
  { rewrite (bool_decide_eq_true_2 (js "stock" = js "stock")) by done.
    rewrite orb_true_r. split; eauto. }
  rewrite !bool_decide_eq_false_2 by done. simpl.
  destruct (values !! index); split; try (by intros [? [=]]); tauto.
Qed.

Lemma forEach_from_well_typed values headers start p :
  well_typed p ->
  well_typed (forEach_from (assign_header values) headers start p).
Proof.
  revert start p. induction headers as [|x hs IH]; intros start p Hp;
    simpl; [done|].
  by apply IH, assign_header_well_typed.
Qed.

Lemma dom_assign_header values header index p :
  dom (assign_header values header index p)
  = dom p ∪ (list_to_set [header] ∖ {[js "__proto__"]}).
Proof.
  rewrite assign_header_set. unfold set_property, streq.
  case_bool_decide as Hproto.
  - subst header. set_solver.
  - rewrite dom_insert_L. set_solver.
Qed.

Lemma dom_forEach_from values headers start p :
  dom (forEach_from (assign_header values) headers start p)
  = dom p ∪ (list_to_set headers ∖ {[js "__proto__"]}).
Proof.
  revert start p. induction headers as [|x hs IH]; intros start p; simpl.
  - set_solver.
  - rewrite IH, dom_assign_header. set_solver.
Qed.

Lemma dom_empty_product : dom empty_product = list_to_set requiredColumns.
Proof.
  unfold empty_product, requiredColumns.
  rewrite !dom_insert_L, dom_empty_L. set_solver.
Qed.

Lemma parse_row_dom_aux headers row :
  dom (parse_row headers row)
  = list_to_set requiredColumns ∪ (list_to_set headers ∖ {[js "__proto__"]}).
Proof.
  unfold parse_row, forEach. by rewrite dom_forEach_from, dom_empty_product.
Qed.

(** X6. The properties of a record: the seven of the object literal and
    one for each header name, the name [__proto__] apart; none is ever
    removed. *)
Theorem parse_row_dom headers row :
  dom (parse_row headers row)
  = list_to_set requiredColumns ∪ (list_to_set headers ∖ {[js "__proto__"]}).
Proof. apply parse_row_dom_aux. Qed.

(** X7. Whatever the header and the row, [basePrice] and [stock] of the
    record are numbers, and no other property of the record is a number:
    the others hold a string or [undefined]. *)
Theorem parse_row_types headers row k :
  (k = js "basePrice" \/ k = js "stock" ->
   exists x, parse_row headers row !! k = Some (VNumber x))
  /\ (forall x, parse_row headers row !! k = Some (VNumber x) ->
      k = js "basePrice" \/ k = js "stock").
Proof.
  assert (well_typed (parse_row headers row)) as Htyped
    by apply forEach_from_well_typed, empty_product_well_typed.
  split.
  - intros Hk.
    assert (k ∈ dom (parse_row headers row)) as [v Hv]%elem_of_dom.
    { rewrite parse_row_dom_aux. apply elem_of_union_l.
      apply elem_of_list_to_set.
      destruct Hk as [-> | ->]; compute_done. }
    destruct (proj2 (Htyped k v Hv) Hk) as [x ->]. eauto.
  - intros x Hx. apply (Htyped k _ Hx). eauto.
Qed.

(** X8. Under a name that is not [basePrice], [stock] or [__proto__],
    the record holds the text of the row between the commas, as it is,
    white space included; when several columns have the name, the last
    one decides. *)
Theorem string_field_is_raw_text headers row h i v :
  headers !! i = Some h ->
  h ∉ drop (S i) headers ->
  h ≠ js "__proto__" -> h ≠ js "basePrice" -> h ≠ js "stock" ->
  split COMMA row !! i = Some v ->
  parse_row headers row !! h = Some (VString v).
Proof.
  intros Hi Hlast Hproto Hbp Hst Hv.
  rewrite (parse_row_last _ _ _ i) by done.
  unfold field_value, streq, element.
  by rewrite !bool_decide_eq_false_2, Hv by done.
Qed.

Lemma string_field_is_raw_text_witness :
  parse_row (split COMMA (js "name,id,name")) (js "Desk, 7 , Oak desk ")
    !! js "name"
  = Some (VString (js " Oak desk ")).
Proof.
  apply (string_field_is_raw_text _ _ _ 2); try compute_done;
    vm_compute; reflexivity.
Defined.

Lemma forEach_from_proto values headers start p :
  forEach_from (assign_header values) headers start p !! js "__proto__"
  = p !! js "__proto__".
Proof.
  revert start p. induction headers as [|x hs IH]; intros start p; simpl;
    [done|].
  rewrite IH, assign_header_set. unfold set_property, streq.
  case_bool_decide as Hx; [done|]. by rewrite lookup_insert_ne.
Qed.

Lemma NoDup_not_later {A : Type} (l : list A) j x :
  NoDup l -> l !! j = Some x -> x ∉ drop (S j) l.
Proof.
  intros Hnd Hj [m Hm]%list_elem_of_lookup.
  rewrite lookup_drop in Hm.
  pose proof (NoDup_lookup _ _ _ _ Hnd Hj Hm). lia.
Qed.

(** X9. The order of the columns does not matter: when the header names
    are distinct and each row has a value for each column, two pairs of a
    header row and a data row that hold the same columns in another order
    give the same record. *)
Theorem column_order_irrelevant hdr row hdr' row' :
  NoDup (split COMMA hdr) ->
  length (split COMMA row) = length (split COMMA hdr) ->
  length (split COMMA row') = length (split COMMA hdr') ->
  zip (split COMMA hdr) (split COMMA row)
  ≡ₚ zip (split COMMA hdr') (split COMMA row') ->
  parse_row (split COMMA hdr) row = parse_row (split COMMA hdr') row'.
Proof.
  unfold parse_row, forEach.
  generalize (split COMMA hdr) (split COMMA row)
             (split COMMA hdr') (split COMMA row').
  intros hs vs hs' vs' Hnd Hlen Hlen' Hperm.
  assert (hs ≡ₚ hs') as Hhs.
  { rewrite <- (fst_zip hs vs), <- (fst_zip hs' vs') by lia.
    by rewrite Hperm. }
  assert (NoDup hs') as Hnd' by by rewrite <- Hhs.
  apply map_eq. intros k.
  destruct (decide (k = js "__proto__")) as [->|Hproto].
  { by rewrite !forEach_from_proto. }
  destruct (decide (k ∈ hs)) as [Hin|Hnotin].
  - apply list_elem_of_lookup in Hin as [i Hi].
    destruct (lookup_lt_is_Some_2 vs i) as [v Hv].
    { rewrite Hlen. by apply lookup_lt_Some in Hi. }
    assert ((k, v) ∈ zip hs' vs') as [j Hj]%list_elem_of_lookup.
    { rewrite <- Hperm. apply list_elem_of_lookup. exists i.
      apply lookup_zip_with_Some. eauto. }
    apply lookup_zip_with_Some in Hj as (k' & v' & [= <- <-] & Hj & Hvj).
    rewrite (forEach_from_last _ _ _ _ _ i), (forEach_from_last _ _ _ _ _ j)
      by (done || by apply NoDup_not_later).
    unfold field_value, element. simpl. by rewrite Hv, Hvj.
  - rewrite !forEach_from_absent; [done| |done]. by rewrite <- Hhs.
Qed.

Lemma column_order_irrelevant_witness :
  parse_row (split COMMA sample_header) sample_row
  = parse_row
      (split COMMA (js "name,id,description,basePrice,stock,image,category"))
      (js "Laptop Pro,1,High-performance laptop,1200,10,https://example.com/laptop.jpg,Electronics").
Proof.
  apply column_order_irrelevant.
  - compute_done.
  - vm_compute; reflexivity.
  - vm_compute; reflexivity.
  - vm_compute. apply Permutation_swap.
Defined.

(** *** No separator inside a value *)

Lemma split_piece_elem sep s piece c :
  piece ∈ split sep s -> c ∈ piece -> c ∈ s /\ c ≠ sep.
Proof.
  revert piece. induction s as [|a s IH]; intros piece; simpl.
  - intros ->%list_elem_of_singleton Hc. by apply not_elem_of_nil in Hc.
  - destruct (N.eqb_spec a sep) as [->|Hne].
    + intros [->|Hin]%elem_of_cons Hc; [by apply not_elem_of_nil in Hc|].
      destruct (IH _ Hin Hc). split; [by right|done].
    + pose proof (split_not_nil sep s) as Hnil.
      destruct (split sep s) as [|x xs]; [done|].
      intros [->|Hin]%elem_of_cons Hc.
      * apply elem_of_cons in Hc as [->|Hc]; [split; [left|done]|].
        destruct (IH x ltac:(left) Hc). split; [by right|done].
      * destruct (IH piece ltac:(by right) Hc). split; [by right|done].
Qed.

Lemma forEach_from_strings_avoid seps values headers start p :
  (forall v, v ∈ values -> forall c, c ∈ seps -> c ∉ v) ->
  strings_avoid seps p ->
  strings_avoid seps (forEach_from (assign_header values) headers start p).
Proof.
  intros Hvalues. revert start p.
  induction headers as [|x hs IH]; intros start p Hp; simpl; [done|].
  apply IH. intros k v. rewrite assign_header_set. unfold set_property.
  destruct (streq x (js "__proto__")); [apply Hp|].
  rewrite lookup_insert_Some. intros [[<- Hv]|[_ Hk]]; [|by apply (Hp k)].
  unfold field_value, element in Hv.
  destruct (streq x (js "basePrice") || streq x (js "stock")); [done|].
  destruct (values !! start) as [v'|] eqn:E; [|done].
  injection Hv as <-. apply Hvalues. by apply list_elem_of_lookup_2 in E.
Qed.

(** X19. No string of a record holds a comma or a line feed: a value
    cannot carry either separator, whatever the text. *)
Theorem values_hold_no_separator text products p k v :
  ingest text = inr products ->
  p ∈ products ->
  p !! k = Some (VString v) ->
  (COMMA ∉ v) /\ (LF ∉ v).
Proof.
  intros Hret Hp Hk.
  apply ingest_returns_inv in Hret as (hdr & rest & Hrows & _ & ->).
  apply list_elem_of_In, in_map_iff in Hp as (row & <- & Hrow).
  apply list_elem_of_In in Hrow.
  assert (row ∈ split LF text) as Hpiece.
  { assert (row ∈ rows text) as Hin by (rewrite Hrows; by right).
    unfold rows in Hin. by apply list_elem_of_filter in Hin as [_ ?]. }
  assert (strings_avoid [COMMA; LF] (parse_row (split COMMA hdr) row))
    as Havoid.
  { apply forEach_from_strings_avoid.
    - intros value Hvalue c Hc Hcv.
      destruct (split_piece_elem _ _ _ _ Hvalue Hcv) as [Hrowc Hcomma].
      apply elem_of_cons in Hc as [->|Hc]; [done|].
      apply list_elem_of_singleton in Hc as ->.
      by destruct (split_piece_elem _ _ _ _ Hpiece Hrowc).
    - intros k' v' Hk'. unfold empty_product in Hk'.
      repeat (apply lookup_insert_Some in Hk' as [[<- Hv]|[_ Hk']];
              [try discriminate Hv; injection Hv as <-;
               intros c _; apply not_elem_of_nil|]).
      by rewrite lookup_empty in Hk'. }
  split; apply (Havoid k v Hk); [left|right; left].
Qed.

Lemma values_hold_no_separator_witness :
  (COMMA ∉ js "Laptop Pro") /\ (LF ∉ js "Laptop Pro").
Proof.
  apply (values_hold_no_separator (sample_header ++ [LF] ++ sample_row)
           [sample_product] sample_product (js "name")).
  - vm_compute; reflexivity.
  - left.
  - vm_compute; reflexivity.
Defined.

End RecordFacts.

(* ===================================================================== *)
(** * Further properties of the parse stage: numbers *)
(* ===================================================================== *)

Module NumberFacts.
Import JS JSFacts CsvUpload IngestFacts.

Local Open Scope Z_scope.

(** *** The binary length of a mantissa *)

Lemma digits2_bounds x :
  2 ^ (Z.pos (digits2_pos x) - 1) <= Z.pos x < 2 ^ Z.pos (digits2_pos x).
Proof.
  induction x as [x IH|x IH|]; cbn [digits2_pos];
    rewrite ?Pos2Z.inj_succ; [| |simpl; lia].
  - replace (Z.succ (Z.pos (digits2_pos x)) - 1)
      with (Z.succ (Z.pos (digits2_pos x) - 1)) by lia.
    rewrite !Z.pow_succ_r by lia. lia.
  - replace (Z.succ (Z.pos (digits2_pos x)) - 1)
      with (Z.succ (Z.pos (digits2_pos x) - 1)) by lia.
    rewrite !Z.pow_succ_r by lia. lia.
Qed.

Lemma digits2_unique x n :
  2 ^ (n - 1) <= Z.pos x < 2 ^ n -> Z.pos (digits2_pos x) = n.
Proof.
  intros [Hlo Hhi]. pose proof (digits2_bounds x) as [Hlo' Hhi'].
  assert (0 < n) as Hn.
  { destruct (Z.lt_trichotomy n 0) as [Hneg|[->|]]; [|simpl in Hhi; lia|done].
    rewrite Z.pow_neg_r in Hhi by done. lia. }
  destruct (Z.lt_trichotomy (Z.pos (digits2_pos x)) n) as [Hlt|[|Hgt]];
    [|done|].
  - assert (2 ^ Z.pos (digits2_pos x) <= 2 ^ (n - 1))
      by (apply Z.pow_le_mono_r; lia). lia.
  - assert (2 ^ n <= 2 ^ (Z.pos (digits2_pos x) - 1))
      by (apply Z.pow_le_mono_r; lia). lia.
Qed.

(** *** Rounding an integer below 2^53 *)

Lemma div_eucl_1 a : Z.div_eucl a 1 = (a, 0).
Proof.
  pose proof (Z.div_1_r a) as Hq. pose proof (Z.mod_1_r a) as Hr.
  unfold Z.div, Z.modulo in *.
  destruct (Z.div_eucl a 1) as [q r]. simpl in *. congruence.
Qed.

Section Exact.

Variable p : positive.
Hypothesis Hp : Z.pos p < 2 ^ 53.

Local Abbreviation d := (Z.pos (digits2_pos p)).

(** The mantissa of [p] as a Number: [p] shifted to 53 bits. *)
Local Abbreviation q := (Z.to_pos (Z.pos p * 2 ^ (53 - d))).

Lemma digits_le_53 : 1 <= d <= 53.
Proof.
  pose proof (digits2_bounds p) as [Hlo _]. split; [lia|].
  destruct (Z_le_gt_dec (Z.pos (digits2_pos p)) 53) as [|Hgt]; [done|].
  assert (2 ^ 53 <= 2 ^ (Z.pos (digits2_pos p) - 1))
    by (apply Z.pow_le_mono_r; lia). lia.
Qed.

Lemma mantissa_pos : Z.pos q = Z.pos p * 2 ^ (53 - d).
Proof.
  pose proof digits_le_53. rewrite Z2Pos.id; [done|].
  apply Z.mul_pos_pos; [done|]. apply Z.pow_pos_nonneg; lia.
Qed.

Lemma mantissa_digits : Z.pos (digits2_pos q) = 53.
Proof.
  pose proof digits_le_53 as Hd.
  apply digits2_unique. rewrite mantissa_pos.
  pose proof (digits2_bounds p) as [Hlo Hhi].
  assert (2 ^ (53 - 1) = 2 ^ (d - 1) * 2 ^ (53 - d)) as E1
    by (rewrite <- Z.pow_add_r by lia; f_equal; lia).
  assert (2 ^ 53 = 2 ^ d * 2 ^ (53 - d)) as E2
    by (rewrite <- Z.pow_add_r by lia; f_equal; lia).
  rewrite E1, E2.
  assert (0 < 2 ^ (53 - d)) by (apply Z.pow_pos_nonneg; lia).
  split; nia.
Qed.

Lemma shifted_mantissa : Z.pos p * 2 ^ (54 - d) = Z.pos q~0.
Proof.
  pose proof digits_le_53.
  rewrite (Pos2Z.inj_xO q), mantissa_pos.
  replace (54 - d) with (Z.succ (53 - d)) by lia.
  rewrite Z.pow_succ_r by lia. lia.
Qed.

Lemma div_core_exact :
  SFdiv_core_binary prec emax (Z.pos p) 0 1 0 = (Z.pos q~0, d - 54, loc_Exact).
Proof.
  pose proof digits_le_53 as Hd.
  unfold SFdiv_core_binary. cbn [Zdigits2 digits2_pos].
  cbv zeta.
  replace (Z.min (fexp prec emax (d + 0 - (1 + 0))) (0 - 0)) with (d - 54)
    by (unfold fexp, SpecFloat.emin, prec, emax; lia).
  replace (0 - 0 - (d - 54)) with (54 - d) by lia.
  destruct (54 - d) as [|k|k] eqn:Hk; [lia| |lia].
  rewrite Z.shiftl_mul_pow2, <- Hk, shifted_mantissa by lia.
  by rewrite div_eucl_1.
Qed.

Lemma shr_fexp_first :
  shr_fexp prec emax (Z.pos q~0) (d - 54) loc_Exact
  = ({| shr_m := Z.pos q; shr_r := false; shr_s := false |}, d - 53).
Proof.
  pose proof digits_le_53 as Hd. pose proof mantissa_digits as Hq.
  unfold shr_fexp. cbn [Zdigits2 digits2_pos].
  rewrite Pos2Z.inj_succ, Hq.
  replace (fexp prec emax (Z.succ 53 + (d - 54)) - (d - 54)) with 1
    by (unfold fexp, SpecFloat.emin, prec, emax; lia).
  simpl. f_equal. lia.
Qed.

Lemma shr_fexp_second :
  shr_fexp prec emax (Z.pos q) (d - 53) loc_Exact
  = ({| shr_m := Z.pos q; shr_r := false; shr_s := false |}, d - 53).
Proof.
  pose proof digits_le_53 as Hd. pose proof mantissa_digits as Hq.
  unfold shr_fexp. cbn [Zdigits2]. rewrite Hq.
  replace (fexp prec emax (53 + (d - 53)) - (d - 53)) with 0
    by (unfold fexp, SpecFloat.emin, prec, emax; lia).
  reflexivity.
Qed.

Lemma round_quotient_exact neg :
  round_quotient neg p 1 = S754_finite neg q (d - 53).
Proof.
  pose proof digits_le_53 as Hd.
  unfold round_quotient, SFdiv. rewrite div_core_exact.
  unfold binary_round_aux. rewrite shr_fexp_first.
  cbn [shr_m loc_of_shr_record round_nearest_even].
  rewrite shr_fexp_second. cbn [shr_m].
  rewrite xorb_false_r.
  replace (d - 53 <=? emax - prec) with true; [done|].
  symmetry. apply Z.leb_le. unfold emax, prec. lia.
Qed.

Lemma number_of_Z_exact : represents_Z (number_of_Z (Z.pos p)) (Z.pos p).
Proof.
  pose proof digits_le_53 as Hd.
  cbn [number_of_Z]. rewrite round_quotient_exact. left.
  split; [|lia]. rewrite mantissa_pos. f_equal. f_equal. lia.
Qed.

End Exact.

(** *** Reading a run of digits *)

Lemma isDigit_range c : isDigit c = true -> (48 <= c <= 57)%N.
Proof.
  unfold isDigit. intros [H1 H2]%andb_true_iff.
  apply N.leb_le in H1, H2. lia.
Qed.

Lemma digit_not_trimmed c : isDigit c = true -> isTrimmed c = false.
Proof.
  intros Hc%isDigit_range.
  assert (c = 48 \/ c = 49 \/ c = 50 \/ c = 51 \/ c = 52 \/ c = 53
          \/ c = 54 \/ c = 55 \/ c = 56 \/ c = 57)%N as Hcases by lia.
  repeat destruct Hcases as [->|Hcases]; try reflexivity.
  by subst c.
Qed.

Lemma span_digits_all ds :
  Forall (fun c => isDigit c = true) ds -> span_digits ds = (ds, []).
Proof.
  induction 1 as [|c ds Hc _ IH]; simpl; [done|]. by rewrite Hc, IH.
Qed.

(** [parseFloat] of a run of digits is the Number nearest to its
    value. *)
Lemma parseFloat_digits ds :
  ds ≠ [] ->
  Forall (fun c => isDigit c = true) ds ->
  parseFloat (Some ds) = number_of_Z (Z.of_N (digits_value ds)).
Proof.
  intros Hne Hds. destruct ds as [|c ds]; [done|]. clear Hne.
  pose proof (Forall_inv Hds) as Hc.
  pose proof (isDigit_range c Hc) as Hrange.
  unfold parseFloat, ToString. cbn [trimStart].
  rewrite (digit_not_trimmed c Hc).
  replace (c =? 45)%N with false by (symmetry; apply N.eqb_neq; lia).
  replace (c =? 43)%N with false by (symmetry; apply N.eqb_neq; lia).
  unfold parse_unsigned.
  replace (starts_with (js "Infinity") (c :: ds)) with false.
  2:{ symmetry. change (js "Infinity") with (73%N :: js "nfinity").
      cbn [starts_with].
      replace (73 =? c)%N with false by (symmetry; apply N.eqb_neq; lia).
      done. }
  rewrite (span_digits_all _ Hds). cbn [unsigned_value].
  rewrite app_nil_r. cbn [length].
  destruct (digits_value (c :: ds)) as [|n]; [done|].
  cbn [Z.of_N number_of_Z]. change (0 - Z.of_nat 0) with 0.
  cbn. by rewrite Pos.mul_1_r.
Qed.

(** X10. A [basePrice] or [stock] value written as a run of decimal
    digits with a value below 2^53 is read exactly: the record holds the
    number with that integer value. *)
Theorem integer_text_is_exact headers row field i ds :
  field = js "basePrice" \/ field = js "stock" ->
  headers !! i = Some field ->
  field ∉ drop (S i) headers ->
  split COMMA row !! i = Some ds ->
  ds ≠ [] ->
  Forall (fun c => isDigit c = true) ds ->
  (digits_value ds < 2 ^ 53)%N ->
  exists x,
    parse_row headers row !! field = Some (VNumber x)
    /\ represents_Z x (Z.of_N (digits_value ds)).
Proof.
  intros Hfield Hi Hlast Hv Hne Hds Hlt.
  exists (parseFloat (Some ds)). split.
  - rewrite (parse_row_last _ _ _ i) by (done || by destruct Hfield as [->| ->]).
    unfold field_value. rewrite Hv. by destruct Hfield as [->| ->].
  - rewrite parseFloat_digits by done.
    destruct (digits_value ds) as [|n] eqn:E; [done|].
    apply number_of_Z_exact. change (2 ^ 53) with (Z.of_N (2 ^ 53)). lia.
Qed.

Lemma integer_text_is_exact_witness :
  exists x,
    parse_row (split COMMA sample_header)
      (js "3,Monitor,4K monitor,9007199254740991,0042,m.jpg,Electronics")
      !! js "basePrice" = Some (VNumber x)
    /\ represents_Z x 9007199254740991.
Proof.
  apply (integer_text_is_exact _ _ (js "basePrice") 3
           (js "9007199254740991")).
  - left; reflexivity.
  - vm_compute; reflexivity.
  - compute_done.
  - vm_compute; reflexivity.
  - discriminate.
  - repeat constructor.
  - vm_compute; reflexivity.
Defined.

(** X11. The [basePrice] or [stock] of a record is [NaN] exactly when the
    value of the deciding column is non-numeric text; a value that only
    starts like a number, with anything after it, is read as a number. *)
Theorem numeric_field_NaN_iff headers row field i v :
  field = js "basePrice" \/ field = js "stock" ->
  headers !! i = Some field ->
  field ∉ drop (S i) headers ->
  split COMMA row !! i = Some v ->
  parse_row headers row !! field = Some (VNumber NaN)
  <-> non_numeric v = true.
Proof.
  intros Hfield Hi Hlast Hv.
  rewrite (parse_row_last _ _ _ i) by (done || by destruct Hfield as [->| ->]).
  assert (field_value (split COMMA row) field i
          = VNumber (parseFloat (Some v))) as ->.
  { unfold field_value. rewrite Hv. by destruct Hfield as [->| ->]. }
  rewrite <- parseFloat_NaN_iff. split; [by intros [= ->]|by intros ->].
Qed.

Lemma numeric_field_NaN_iff_witness :
  (parse_row (split COMMA sample_header)
     (js "3,Monitor,4K monitor,$300,12 units,m.jpg,Electronics")
     !! js "stock" = Some (VNumber NaN)
   <-> non_numeric (js "12 units") = true)
  /\ non_numeric (js "12 units") = false
  /\ non_numeric (js "$300") = true.
Proof.
  split; [|split; vm_compute; reflexivity].
  apply (numeric_field_NaN_iff _ _ (js "stock") 4 (js "12 units")).
  - right; reflexivity.
  - vm_compute; reflexivity.
  - compute_done.
  - vm_compute; reflexivity.
Defined.

End NumberFacts.

(* ===================================================================== *)
(** * Further properties of the component *)
(* ===================================================================== *)

Module ComponentFacts.
Import JS JSFacts CsvUpload IngestFacts.

(** *** The decimal text of a count *)

Lemma uint_digits_value u acc :
  fold_left (fun acc c => 10 * acc + (c - 48)) (uint_digits u) acc
  = N.of_nat (Nat.of_uint_acc u (N.to_nat acc)).
Proof.
  revert acc. induction u as [|u IH|u IH|u IH|u IH|u IH|u IH|u IH|u IH|u IH|u IH];
    intros acc; cbn [uint_digits fold_left Nat.of_uint_acc];
    [by rewrite N2Nat.id|..];
    rewrite IH, Nat.tail_mul_spec; do 2 f_equal; lia.
Qed.

Lemma nat_to_string_value n : digits_value (nat_to_string n) = N.of_nat n.
Proof.
  unfold digits_value, nat_to_string. rewrite uint_digits_value.
  change (Nat.of_uint_acc (Nat.to_uint n) (N.to_nat 0))
    with (Nat.of_uint (Nat.to_uint n)).
  by rewrite DecimalNat.Unsigned.of_to.
Qed.

Lemma uint_digits_are_digits u :
  Forall (fun c => isDigit c = true) (uint_digits u).
Proof. induction u; by constructor. Qed.

Lemma nzhead_not_D0 u v : Decimal.nzhead u ≠ D0 v.
Proof. induction u; simpl; try discriminate. done. Qed.

(** The numeral of a count has no leading zero: it is [0] or starts with
    another digit. *)
Lemma nat_to_string_canonical n :
  nat_to_string n = [48] \/ exists c s, nat_to_string n = c :: s /\ c ≠ 48.
Proof.
  unfold nat_to_string.
  pose proof (DecimalNat.Unsigned.to_of (Nat.to_uint n)) as Hu.
  rewrite DecimalNat.Unsigned.of_to in Hu. unfold Decimal.unorm in Hu.
  pose proof (nzhead_not_D0 (Nat.to_uint n)) as Hhead.
  destruct (Decimal.nzhead (Nat.to_uint n)) eqn:E; rewrite Hu;
    [by left|by destruct (Hhead u)|right; eauto..].
Qed.

Ltac unfold_run :=
  unfold handleUpload, try_catch_finally, mbind, M_bind, read_text, parse,
    sleep, perform, throw, mret, M_ret, call_uploadProducts,
    setUploadStatus, setUploading.

Section Handler.

Context {Store : Type}.
Variable uploadProducts : list product -> Store -> Store.
Variable undefined_row_message : jsstring.

Local Abbreviation run := (handleUpload uploadProducts undefined_row_message).

#[local] Existing Instance M_bind.

(** X12. A file named [*.csv] whose header row is valid is uploaded in
    full, [uploadProducts] returning normally: after the wait and the
    read, the store is called once with one record per data row, and the
    success message states the number of data rows as a decimal numeral
    without leading zeros. *)
Theorem upload_reports_row_count (w : world) f text hdr rest :
  file w = Some f ->
  js ".csv" `suffix_of` file_name f ->
  file_text f = inr text ->
  rows text = hdr :: rest ->
  (forall col, col ∈ requiredColumns -> col ∈ split COMMA hdr) ->
  exists count,
    run w
    = (inr tt,
       {| file := Some f; uploading := false;
          uploadStatus :=
            Some {| type := success;
                    message := js "Successfully processed " ++ count
                               ++ js " products." |};
          store :=
            uploadProducts (map (parse_row (split COMMA hdr)) rest) (store w);
          effects :=
            effects w
            ++ [SetTimeout 1500; ReadText f;
                UploadProducts (map (parse_row (split COMMA hdr)) rest)] |})
    /\ (count = [48] \/ exists c s, count = c :: s /\ c ≠ 48)
    /\ Forall (fun c => isDigit c = true) count
    /\ digits_value count = N.of_nat (length rest).
Proof.
  intros Hfile Hext%endsWith_suffix Htext Hrows Hall.
  exists (nat_to_string (length rest)). split; [|split; [|split]].
  - unfold_run. rewrite Hfile, Hext. simpl.
    rewrite Htext. simpl.
    rewrite (ingest_complete_header _ _ _ Hrows Hall). simpl.
    by rewrite <- !app_assoc, length_map.
  - apply nat_to_string_canonical.
  - apply uint_digits_are_digits.
  - apply nat_to_string_value.
Qed.

(** X13. A run of the handler never throws, keeps the chosen file and
    leaves a status to show.  When a file is chosen and its name ends in
    [.csv], the run ends with [uploading] off, whatever happened; in
    every other case it changes nothing but the status: [uploading], the
    effects and the store are as before. *)
Theorem run_settles (w : world) :
  let '(r, w') := run w in
  r = inr tt
  /\ file w' = file w
  /\ is_Some (uploadStatus w')
  /\ ((exists f, file w = Some f /\ js ".csv" `suffix_of` file_name f) ->
      uploading w' = false)
  /\ (~ (exists f, file w = Some f /\ js ".csv" `suffix_of` file_name f) ->
      uploading w' = uploading w
      /\ effects w' = effects w /\ store w' = store w).
Proof.
  unfold handleUpload.
  destruct (file w) as [f|] eqn:Hfile.
  2:{ simpl. rewrite Hfile.
      split; [done|]. split; [done|]. split; [by eexists|].
      split; [by intros (f & [=] & _)|done]. }
  destruct (endsWith (file_name f) (js ".csv")) eqn:Hext.
  2:{ simpl. rewrite Hfile.
      split; [done|]. split; [done|]. split; [by eexists|].
      split; [|done].
      intros (f' & [= <-] & Hsuffix%endsWith_suffix). congruence. }
  apply endsWith_suffix in Hext.
  assert (exists f0, Some f = Some f0 /\ js ".csv" `suffix_of` file_name f0)
    as Hpast by eauto.
  unfold_run. simpl.
  destruct (file_text f) as [e|text]; simpl.
  { rewrite Hfile.
    split; [done|]. split; [done|]. split; [by eexists|]. by split. }
  destruct (ingest text) as [[|msg]|products]; simpl; rewrite Hfile;
    (split; [done|]; split; [done|]; split; [by eexists|]; by split).
Qed.

(** X14. Past the two checks, and with an [uploadProducts] that returns
    normally, the handler does three things in this
    order: it waits 1500 ms, reads the file, and then either calls the
    store, ending in a success status, or writes the thrown value to the
    console, ending in an error status with the message of that value. *)
Theorem effects_in_order (w : world) f :
  file w = Some f ->
  js ".csv" `suffix_of` file_name f ->
  let w' := (run w).2 in
  exists ev,
    effects w' = effects w ++ [SetTimeout 1500; ReadText f; ev]
    /\ ((exists products msg,
           ev = UploadProducts products
           /\ uploadStatus w' = Some {| type := success; message := msg |})
        \/ (exists e,
              ev = ConsoleError e
              /\ store w' = store w
              /\ uploadStatus w'
                 = Some {| type := error;
                           message :=
                             match e with
                             | ErrorObject msg => msg
                             | OtherValue =>
                                 js "An error occurred while processing the CSV file."
                             end |})).
Proof.
  intros Hfile Hext%endsWith_suffix. unfold_run. rewrite Hfile, Hext. simpl.
  destruct (file_text f) as [e|text]; simpl.
  { eexists. split; [by rewrite <- !app_assoc|]. right. eauto. }
  destruct (ingest text) as [[|msg]|products]; simpl;
    (eexists; split; [by rewrite <- !app_assoc|]); eauto 10.
Qed.

(** X15. What is thrown past the two checks reaches the user as it is:
    the message of the error [file.text()] rejects with, the fixed text
    for a rejection that is not an error, and the message of line 57 with
    the missing columns. *)
Theorem errors_shown_verbatim (w : world) f :
  file w = Some f ->
  js ".csv" `suffix_of` file_name f ->
  let w' := (run w).2 in
  (forall msg,
     file_text f = inl (ErrorObject msg) ->
     uploadStatus w' = Some {| type := error; message := msg |})
  /\ (file_text f = inl OtherValue ->
      uploadStatus w'
      = Some {| type := error;
                message :=
                  js "An error occurred while processing the CSV file." |})
  /\ (forall text msg,
        file_text f = inr text ->
        ingest text = inl (MissingColumns msg) ->
        uploadStatus w' = Some {| type := error; message := msg |}).
Proof.
  intros Hfile Hext%endsWith_suffix. unfold_run. rewrite Hfile, Hext. simpl.
  split; [|split].
  - by intros msg ->.
  - by intros ->.
  - intros text msg -> Hingest. simpl. by rewrite Hingest.
Qed.

(** X16. The upload button is enabled only when a file is chosen and no
    upload is running; a run started then ends with the button enabled
    again, under its idle label, and with an alert on the page. *)
Theorem enabled_button_stays_enabled (w : world) :
  upload_disabled (render w) = false ->
  let w' := (run w).2 in
  (exists f, file w = Some f)
  /\ uploading w = false
  /\ upload_disabled (render w') = false
  /\ upload_label (render w') = js "Upload to AWS S3 & Process"
  /\ is_Some (alert_box (render w')).
Proof.
  unfold render at 1. cbn [upload_disabled].
  intros [Hfile Hup]%orb_false_iff.
  destruct (file w) as [f|] eqn:Ef; [clear Hfile|done].
  split; [eauto|]. split; [done|].
  unfold_run. rewrite Ef.
  destruct (endsWith (file_name f) (js ".csv")); simpl.
  2:{ unfold render. simpl. rewrite Hup. eauto. }
  destruct (file_text f) as [e|text]; simpl.
  { unfold render. simpl. eauto. }
  destruct (ingest text) as [[|msg]|products]; simpl;
    unfold render; simpl; eauto.
Qed.

(** X17. With an [uploadProducts] that returns normally, the alert after
    a run tells what happened to the store: its
    title is [Success], in the default variant, exactly when
    [uploadProducts] was called during the run, and [Error], in the
    destructive variant, exactly when it was not. *)
Theorem alert_tells_the_store (w : world) :
  let '(_, w') := run w in
  exists evs a,
    effects w' = effects w ++ evs
    /\ alert_box (render w') = Some a
    /\ (upload_calls evs ≠ []
        -> title a = js "Success" /\ variant a = variant_default)
    /\ (upload_calls evs = []
        -> title a = js "Error" /\ variant a = variant_destructive).
Proof.
  unfold handleUpload.
  destruct (file w) as [f|] eqn:Hfile.
  2:{ simpl. exists []. eexists. rewrite app_nil_r.
      split; [done|]. split; [reflexivity|]. by split. }
  destruct (endsWith (file_name f) (js ".csv")).
  2:{ simpl. exists []. eexists. rewrite app_nil_r.
      split; [done|]. split; [reflexivity|]. by split. }
  unfold_run. simpl.
  destruct (file_text f) as [e|text]; simpl.
  { eexists _, _. split; [by rewrite <- !app_assoc|].
    split; [reflexivity|]. by split. }
  destruct (ingest text) as [[|msg]|products]; simpl;
    (eexists _, _; split; [by rewrite <- !app_assoc|];
     split; [reflexivity|]; by split).
Qed.

(** X18. Choosing and clearing.  Clearing forgets an earlier choice, and
    a new choice replaces whatever was there; closing the dialog without
    a file changes nothing; none of this reaches the store, the effects
    or the [uploading] flag; and after a clear the upload button is
    disabled and no alert is shown. *)
Theorem choose_and_clear (w : @world Store) (files : option (list File)) f fs :
  ((handleFileChange files;; handleClearFile) w).2 = (handleClearFile w).2
  /\ ((handleClearFile;; handleFileChange (Some (f :: fs))) w).2
     = (handleFileChange (Some (f :: fs)) w).2
  /\ file ((handleFileChange (Some (f :: fs)) w).2) = Some f
  /\ (handleFileChange None w).2 = w
  /\ (handleFileChange (Some []) w).2 = w
  /\ (store ((handleFileChange files w).2) = store w
      /\ effects ((handleFileChange files w).2) = effects w
      /\ uploading ((handleFileChange files w).2) = uploading w)
  /\ (store ((handleClearFile w).2) = store w
      /\ effects ((handleClearFile w).2) = effects w
      /\ uploading ((handleClearFile w).2) = uploading w)
  /\ upload_disabled (render ((handleClearFile w).2)) = true
  /\ alert_box (render ((handleClearFile w).2)) = None.
Proof.
  destruct w as [wf wu ws wst we].
  repeat split; try reflexivity; by destruct files as [[|? ?]|].
Qed.

End Handler.

Lemma upload_reports_row_count_witness :
  let second := js "2,Office Chair,Ergonomic chair for your office,300,25,https://example.com/chair.jpg,Furniture" in
  let f := {| file_name := js "products.csv";
              file_text := inr (sample_header ++ [LF] ++ sample_row ++ [LF]
                                ++ second ++ [LF]) |} in
  let w := {| file := Some f; uploading := false; uploadStatus := None;
              store := @nil product; effects := [] |} in
  let records := map (parse_row (split COMMA sample_header))
                   [sample_row; second] in
  (exists count,
     handleUpload (fun products st => st ++ products) [] w
     = (inr tt,
        {| file := Some f; uploading := false;
           uploadStatus :=
             Some {| type := success;
                     message := js "Successfully processed " ++ count
                                ++ js " products." |};
           store := records;
           effects := [SetTimeout 1500; ReadText f; UploadProducts records] |})
     /\ (count = [48] \/ exists c s, count = c :: s /\ c ≠ 48)
     /\ Forall (fun c => isDigit c = true) count
     /\ digits_value count = 2%N)
  /\ uploadStatus
       ((handleUpload (fun products st => st ++ products) [] w).2)
     = Some {| type := success;
               message := js "Successfully processed 2 products." |}.
Proof.
  intros second f w records. split; [|vm_compute; reflexivity].
  apply (upload_reports_row_count (fun products st => st ++ products) [] w f
           (sample_header ++ [LF] ++ sample_row ++ [LF] ++ second ++ [LF])
           sample_header [sample_row; second]).
  - reflexivity.
  - compute_done.
  - reflexivity.
  - vm_compute; reflexivity.
  - apply Forall_forall; compute_done.
Defined.

Lemma effects_in_order_witness :
  let f := {| file_name := js "stock.csv"; file_text := inl OtherValue |} in
  let w := {| file := Some f; uploading := false; uploadStatus := None;
              store := @nil product; effects := [] |} in
  js ".csv" `suffix_of` file_name f
  /\ exists ev,
       effects ((handleUpload (fun products st => st ++ products) [] w).2)
       = [SetTimeout 1500; ReadText f; ev].
Proof.
  intros f w.
  assert (js ".csv" `suffix_of` file_name f) as Hext by compute_done.
  split; [exact Hext|].
  destruct (effects_in_order (fun products st => st ++ products) [] w f
              eq_refl Hext) as (ev & Heffects & _).
  exists ev. exact Heffects.
Defined.

Lemma errors_shown_verbatim_witness :
  let f := {| file_name := js "stock.csv";
              file_text := inr (js "name,price" ++ [LF] ++ js "Desk,300") |} in
  let w := {| file := Some f; uploading := false; uploadStatus := None;
              store := @nil product; effects := [] |} in
  uploadStatus ((handleUpload (fun products st => st ++ products) [] w).2)
  = Some {| type := error;
            message := js "Missing required columns: id, description, basePrice, stock, image, category" |}.
Proof.
  intros f w.
  assert (js ".csv" `suffix_of` file_name f) as Hext by compute_done.
  destruct (errors_shown_verbatim (fun products st => st ++ products) [] w f
              eq_refl Hext) as (_ & _ & Hmissing).
  apply (Hmissing (js "name,price" ++ [LF] ++ js "Desk,300")).
  - reflexivity.
  - vm_compute; reflexivity.
Defined.

Lemma enabled_button_stays_enabled_witness :
  let f := {| file_name := js "stock.csv";
              file_text := inr (sample_header ++ [LF] ++ sample_row) |} in
  let w := {| file := Some f; uploading := false;
              uploadStatus :=
                Some {| type := error; message := js "earlier" |};
              store := @nil product; effects := [] |} in
  upload_disabled (render w) = false
  /\ upload_disabled
       (render ((handleUpload (fun products st => st ++ products) [] w).2))
     = false.
Proof.
  intros f w.
  assert (upload_disabled (render w) = false) as Henabled by reflexivity.
  split; [exact Henabled|].
  destruct (enabled_button_stays_enabled
              (fun products st => st ++ products) [] w Henabled)
    as (_ & _ & Hafter & _).
  exact Hafter.
Defined.

End ComponentFacts.
